(** * The WebSocket relay of [server.js]: connection registry and envelope routing

    A shallow embedding of the handlers that [server.js] installs on every
    WebSocket connection ([message], [close], [error], and the 30 s keep-alive
    interval) together with the shared [clients] map, followed by the
    properties of the registry and of the router.

    The handlers mutate shared state ([clients], the closure variable
    [userId], the interval table), write to sockets and to the console, and
    the [message] handler runs inside [try]/[catch].  They are written in a
    small monad that threads the server state, accumulates the calls made on
    the outside world, and carries a thrown exception; a [throw] keeps the
    mutations performed before it, as in JavaScript. *)

From Stdlib Require Import List String Ascii Bool Arith Lia.
From Stdlib Require Import ZArith DecimalString.
Import ListNotations.
Local Open Scope string_scope.
Local Open Scope list_scope.

Set Implicit Arguments.
Set Warnings "-register-all".

(** ** Map operations

    [clients] is a JavaScript [Map]: iteration follows insertion order
    ([logConnectedUsers] prints it), [set] on a present key replaces the value
    in place, [set] on an absent key appends, [delete] removes the entry.  The
    model is an association list whose keys are compared with a decidable
    equality. *)

Section JsMap.
Variables K V : Type.
Variable K_eq_dec : forall a b : K, {a = b} + {a <> b}.

Definition same (a b : K) : bool := if K_eq_dec a b then true else false.

Fixpoint Map_get (k : K) (m : list (K * V)) : option V :=
  match m with
  | [] => None
  | (k', v) :: rest => if same k k' then Some v else Map_get k rest
  end.

Definition Map_delete (k : K) (m : list (K * V)) : list (K * V) :=
  filter (fun e => negb (same k (fst e))) m.

Fixpoint Map_set (k : K) (v : V) (m : list (K * V)) : list (K * V) :=
  match m with
  | [] => [(k, v)]
  | (k', v') :: rest =>
      if same k k' then (k, v) :: rest else (k', v') :: Map_set k v rest
  end.

Definition Map_size_of (k : K) (m : list (K * V)) : nat :=
  List.length (filter (fun e => same k (fst e)) m).
End JsMap.

(** ** Sockets, exceptions, console *)

(** [WebSocket.readyState]. *)
Inductive ready_state := CONNECTING | OPEN | CLOSING | CLOSED.

Definition is_OPEN (r : ready_state) : bool :=
  match r with OPEN => true | _ => false end.

(** The two exceptions the [message] handler can meet: [JSON.parse] on a
    malformed text, and a property read on [null] or [undefined]. *)
Inductive exn := SyntaxError | TypeError.

Inductive completion (A : Type) :=
| Normal (a : A)
| Throw (e : exn).
Arguments Throw {A} e.

(** The double-quote character, for the text of the duplicate error. *)
Definition dquote : string := String (ascii_of_nat 34) EmptyString.

(** What the runtime can deliver to the server (see [step] below). *)
Inductive event :=
| Connection
| Message (socket : nat) (text : string)
| Close (socket : nat)
| Error (socket : nat) (message : string)
| Interval (socket : nat)
| Transport (socket : nat) (r : ready_state).

(** A value as [JSON.parse] builds it, plus [undefined] for a property that
    is absent.  JSON numbers are IEEE doubles; the server only uses them as
    [Map] keys (SameValueZero: [+0] and [-0] are one key), as conditions, and
    inside template literals, all of which see [+0] and [-0] alike.  The type
    of numbers up to that identification is a parameter. *)
Inductive value (number : Type) :=
| VUndefined
| VNull
| VBool (b : bool)
| VNum (n : number)
| VStr (s : string)
| VArr (elems : list (value number))
| VObj (props : list (string * value number)).
Arguments VUndefined {number}.
Arguments VNull {number}.
Arguments VBool {number} b.
Arguments VStr {number} s.

(** ** A concrete platform for worked runs

    Integers for numbers, a serializer that escapes quotes and backslashes
    (control characters are left as they are), and a parser that recognises
    the texts of the frames below and takes every other text for malformed.
    The properties of the server are proved for every platform; this one
    runs the server on actual frames. *)
Module Sample.

Definition number_truthy (n : Z) : bool := negb (n =? 0)%Z.

Definition number_to_string (n : Z) : string :=
  NilZero.string_of_int (Z.to_int n).

(** A quote or a backslash is written with a backslash before it. *)
Fixpoint escape (s : string) : string :=
  match s with
  | EmptyString => EmptyString
  | String c rest =>
      if (c =? ascii_of_nat 34)%char || (c =? ascii_of_nat 92)%char
      then String (ascii_of_nat 92) (String c (escape rest))
      else String c (escape rest)
  end.

Definition quoted (s : string) : string :=
  String.append dquote (String.append (escape s) dquote).

(** [JSON.stringify]: a property whose value is [undefined] is left out, an
    [undefined] array element is written [null]. *)
Fixpoint JSON_stringify (v : value Z) : string :=
  match v with
  | VUndefined | VNull => "null"
  | VBool true => "true"
  | VBool false => "false"
  | VNum n => number_to_string n
  | VStr s => quoted s
  | VArr elems =>
      String.append "["
        (String.append (String.concat "," (map JSON_stringify elems)) "]")
  | VObj props =>
      String.append "{"
        (String.append
           (String.concat ","
              (flat_map
                 (fun p =>
                    match snd p with
                    | VUndefined => []
                    | _ =>
                        [String.append (quoted (fst p))
                           (String.append ":" (JSON_stringify (snd p)))]
                    end) props)) "}")
  end.

Definition register_as (userId : string) : value Z :=
  VObj [("type", VStr "register"); ("userId", VStr userId)].

Definition register_with (userId tailscaleIP : string) : value Z :=
  VObj [("type", VStr "register"); ("userId", VStr userId);
        ("tailscaleIP", VStr tailscaleIP)].

(** A [register] envelope with no [userId] at all. *)
Definition register_anonymous : value Z :=
  VObj [("type", VStr "register")].

Definition message_to (from to message : string) (timestamp : Z) : value Z :=
  VObj [("type", VStr "message"); ("from", VStr from); ("to", VStr to);
        ("message", VStr message); ("timestamp", VNum timestamp)].

(** A [message] envelope with no [to]. *)
Definition message_to_nobody (from message : string) : value Z :=
  VObj [("type", VStr "message"); ("from", VStr from);
        ("message", VStr message)].

Definition signal_to (from to kind : string) : value Z :=
  VObj [("type", VStr "webrtc-signal"); ("from", VStr from); ("to", VStr to);
        ("data", VObj [("type", VStr kind)])].

Definition hello : value Z := VObj [("type", VStr "hello")].

Definition frames : list (value Z) :=
  [ register_as "alice"; register_as "bob"; register_as "dave";
    register_as "";
    register_anonymous;
    register_with "carol" "null"; register_with "dave" "100.64.0.7";
    message_to "alice" "bob" "hi" 1; message_to_nobody "bob" "hi";
    signal_to "alice" "bob" "offer"; hello; VNull ].

Definition JSON_parse (text : string) : option (value Z) :=
  find (fun v => String.eqb (JSON_stringify v) text) frames.

(** The text of a frame. *)
Definition text_of (v : value Z) : string := JSON_stringify v.

End Sample.

(** The sample platform with two more frames, whose identity is an object. *)
Module Objects.

Definition alice : value Z := VObj [("name", VStr "alice")].

Definition register_as_object : value Z :=
  VObj [("type", VStr "register"); ("userId", alice)].

Definition message_to_object : value Z :=
  VObj [("type", VStr "message"); ("from", VStr "bob"); ("to", alice);
        ("message", VStr "hi")].

Definition frames : list (value Z) :=
  Sample.frames ++ [register_as_object; message_to_object].

Definition JSON_parse (text : string) : option (value Z) :=
  find (fun v => String.eqb (Sample.JSON_stringify v) text) frames.

End Objects.

Section Server.

(** The platform: numbers, [JSON.parse] and [JSON.stringify]. *)
Variable number : Type.
Variable number_eq_dec : forall a b : number, {a = b} + {a <> b}.
Variable number_truthy : number -> bool.
Variable number_to_string : number -> string.

Variable JSON_parse : string -> option (value number).
Variable JSON_stringify : value number -> string.
Local Abbreviation value := (value number).

(** ToBoolean. *)
Definition truthy (v : value) : bool :=
  match v with
  | VUndefined | VNull => false
  | VBool b => b
  | VNum n => number_truthy n
  | VStr s => negb (s =? "")
  | VArr _ | VObj _ => true
  end.

(** ToString, as a template literal applies it. *)
Fixpoint ToString (v : value) : string :=
  match v with
  | VUndefined => "undefined"
  | VNull => "null"
  | VBool true => "true"
  | VBool false => "false"
  | VNum n => number_to_string n
  | VStr s => s
  | VArr elems =>
      String.concat ","
        (map (fun e => match e with
                       | VUndefined | VNull => ""
                       | _ => ToString e
                       end) elems)
  | VObj _ => "[object Object]"
  end.

(** The value of property [name] in an object; [JSON.parse] keeps one value
    per name. *)
Fixpoint assoc (name : string) (props : list (string * value)) : value :=
  match props with
  | [] => VUndefined
  | (n, v) :: rest => if n =? name then v else assoc name rest
  end.

(** [v.name] for the property names the server reads ([type], [userId],
    [tailscaleIP], [to], [from], [message], [timestamp], [data]); none of
    them is found on a prototype, so a boolean, number, string or array
    answers [undefined]. *)
Definition get (v : value) (name : string) : completion value :=
  match v with
  | VUndefined | VNull => Throw TypeError
  | VObj props => Normal (assoc name props)
  | _ => Normal VUndefined
  end.

(** [v === 'literal']. *)
Definition is_string (v : value) (lit : string) : bool :=
  match v with
  | VStr s => s =? lit
  | _ => false
  end.

(** What a [Map] key or the closure variable [userId] holds: a primitive,
    or a reference to an object or array.  References are compared by
    address, and every object built by [JSON.parse] is new. *)
Inductive key :=
| KUndefined
| KNull
| KBool (b : bool)
| KNum (n : number)
| KStr (s : string)
| KRef (addr : nat).

Definition key_eq_dec (a b : key) : {a = b} + {a <> b}.
Proof.
  decide equality;
    first [ apply Bool.bool_dec | apply number_eq_dec
          | apply string_dec | apply Nat.eq_dec ].
Defined.

Definition key_truthy (k : key) : bool :=
  match k with
  | KUndefined | KNull => false
  | KBool b => b
  | KNum n => number_truthy n
  | KStr s => negb (s =? "")
  | KRef _ => true
  end.

(** One entry of [clients]: [{ ws, tailscaleIp, pingInterval }]. *)
Record client := {
  ws : nat;
  tailscaleIp : value;
  pingInterval : nat
}.

(** One accepted connection: the socket's [readyState] and the two
    variables of the [wss.on('connection', ...)] closure. *)
Record connection := {
  conn_readyState : ready_state;
  conn_userId : key;
  conn_pingInterval : nat
}.

Record server := {
  clients : list (key * client);
  connections : list connection;  (* position = socket *)
  intervals : list nat;           (* the intervals that are running *)
  next_interval : nat;            (* handle the next setInterval returns *)
  next_addr : nat                 (* address of the next object *)
}.

Definition initial : server :=
  {| clients := []; connections := []; intervals := [];
     next_interval := 0; next_addr := 0 |}.

(** Console output, one constructor per [console.log]/[console.error] of
    the source. *)
Inductive line :=
| ReceivedRaw (text : string)
| Parsed (data : value)
| DuplicateAttempt (uid : key)
| Registered (uid : key) (ip : value)
| ConnectedUsers
| ConnectedUser (uid : key) (ip : value) (rs : ready_state)
| MessageReceived (from to message : value)
| Forwarded (to : value)
| RecipientNotConnected (to : value)
| Relayed (signalType from to : value)
| CouldNotRelay (to : value)
| InvalidJSON (e : exn)
| Disconnected (uid : key)
| WebSocketError (uid : option key) (message : string).

(** Calls on the outside world. *)
Inductive effect :=
| Send (socket : nat) (text : string)
| Console (l : line)
| SetInterval (handle socket : nat)
| ClearInterval (handle : nat).

(** ** The handler monad *)

Definition M (A : Type) : Type :=
  server -> completion A * server * list effect.

Definition ret {A} (a : A) : M A := fun s => (Normal a, s, []).

Definition bind {A B} (m : M A) (f : A -> M B) : M B :=
  fun s =>
    match m s with
    | (Normal a, s1, out1) =>
        let '(r, s2, out2) := f a s1 in (r, s2, out1 ++ out2)
    | (Throw e, s1, out1) => (Throw e, s1, out1)
    end.

Definition try_catch (body : M unit) (handler : exn -> M unit) : M unit :=
  fun s =>
    match body s with
    | (Normal a, s1, out1) => (Normal a, s1, out1)
    | (Throw e, s1, out1) =>
        let '(r, s2, out2) := handler e s1 in (r, s2, out1 ++ out2)
    end.

Definition lift {A} (c : completion A) : M A := fun s => (c, s, []).
Definition gets {A} (f : server -> A) : M A := fun s => (Normal (f s), s, []).
Definition modify (f : server -> server) : M unit :=
  fun s => (Normal tt, f s, []).
Definition emit (e : effect) : M unit := fun s => (Normal tt, s, [e]).

Notation "x <- m ;; k" := (bind m (fun x => k))
  (at level 61, m at next level, right associativity).
Notation "m ;; k" := (bind m (fun _ => k))
  (at level 61, right associativity).

(** ** Primitives of the platform *)

Definition console_log (l : line) : M unit := emit (Console l).
Definition console_error (l : line) : M unit := emit (Console l).

(** [socket.send(text)]: the call is recorded; the handlers never pass a
    callback and the library does not throw on a server-side socket. *)
Definition ws_send (socket : nat) (text : string) : M unit :=
  emit (Send socket text).

Definition readyState_in (s : server) (socket : nat) : ready_state :=
  match nth_error (connections s) socket with
  | Some c => conn_readyState c
  | None => CLOSED
  end.

Definition readyState (socket : nat) : M ready_state :=
  gets (fun s => readyState_in s socket).

Definition userId_in (s : server) (socket : nat) : key :=
  match nth_error (connections s) socket with
  | Some c => conn_userId c
  | None => KNull
  end.

Definition pingInterval_in (s : server) (socket : nat) : nat :=
  match nth_error (connections s) socket with
  | Some c => conn_pingInterval c
  | None => 0
  end.

Fixpoint update (socket : nat) (f : connection -> connection)
         (l : list connection) : list connection :=
  match l, socket with
  | [], _ => []
  | c :: rest, 0 => f c :: rest
  | c :: rest, S n => c :: update n f rest
  end.

Definition with_connections (f : list connection -> list connection)
           (s : server) : server :=
  {| clients := clients s; connections := f (connections s);
     intervals := intervals s; next_interval := next_interval s;
     next_addr := next_addr s |}.

Definition with_clients (f : list (key * client) -> list (key * client))
           (s : server) : server :=
  {| clients := f (clients s); connections := connections s;
     intervals := intervals s; next_interval := next_interval s;
     next_addr := next_addr s |}.

(** [userId = k] in the closure of [socket]. *)
Definition assign_userId (socket : nat) (k : key) : M unit :=
  modify (with_connections
            (update socket (fun c =>
               {| conn_readyState := conn_readyState c; conn_userId := k;
                  conn_pingInterval := conn_pingInterval c |}))).

(** The transport moves a socket to another [readyState]. *)
Definition set_readyState (socket : nat) (r : ready_state) : M unit :=
  modify (with_connections
            (update socket (fun c =>
               {| conn_readyState := r; conn_userId := conn_userId c;
                  conn_pingInterval := conn_pingInterval c |}))).

(** The value of a property as something that can be held and compared:
    a primitive is itself, an object or array is a reference to the
    address it was built at. *)
Definition key_at (addr : nat) (v : value) : key :=
  match v with
  | VUndefined => KUndefined
  | VNull => KNull
  | VBool b => KBool b
  | VNum n => KNum n
  | VStr s => KStr s
  | VArr _ | VObj _ => KRef addr
  end.

Definition is_object (v : value) : bool :=
  match v with
  | VArr _ | VObj _ => true
  | _ => false
  end.

Definition with_next_addr (a : nat) (s : server) : server :=
  {| clients := clients s; connections := connections s;
     intervals := intervals s; next_interval := next_interval s;
     next_addr := a |}.

Definition reference (v : value) : M key :=
  a <- gets next_addr ;;
  (if is_object v then modify (with_next_addr (S a)) else ret tt) ;;
  ret (key_at a v).

Definition clients_get (k : key) : M (option client) :=
  gets (fun s => Map_get key_eq_dec k (clients s)).
Definition clients_delete (k : key) : M unit :=
  modify (with_clients (Map_delete key_eq_dec k)).
Definition clients_set (k : key) (c : client) : M unit :=
  modify (with_clients (Map_set key_eq_dec k c)).

(** [setInterval(callback, 30000)]; the callback is [ping socket] below. *)
Definition setInterval (socket : nat) : M nat :=
  t <- gets next_interval ;;
  modify (fun s =>
    {| clients := clients s; connections := connections s;
       intervals := t :: intervals s; next_interval := S t;
       next_addr := next_addr s |}) ;;
  emit (SetInterval t socket) ;;
  ret t.

Definition with_intervals (f : list nat -> list nat) (s : server) : server :=
  {| clients := clients s; connections := connections s;
     intervals := f (intervals s); next_interval := next_interval s;
     next_addr := next_addr s |}.

Definition clearInterval (t : nat) : M unit :=
  modify (with_intervals (filter (fun t' => negb (t' =? t)%nat))) ;;
  emit (ClearInterval t).

(** ** The handlers of [server.js] *)

(** [logConnectedUsers()]. *)
Definition logConnectedUsers : M unit :=
  console_log ConnectedUsers ;;
  (fun s =>
     (Normal tt, s,
      map (fun e => Console (ConnectedUser (fst e) (tailscaleIp (snd e))
                               (readyState_in s (ws (snd e)))))
          (clients s))).

(** [c && c.ws.readyState === WebSocket.OPEN], keeping [c] when it holds. *)
Definition and_open (c : option client) : M (option client) :=
  match c with
  | Some r =>
      rs <- readyState (ws r) ;;
      ret (if is_OPEN rs then Some r else None)
  | None => ret None
  end.

(** The keep-alive callback given to [setInterval]. *)
Definition ping (self : nat) : M unit :=
  rs <- readyState self ;;
  if is_OPEN rs
  then ws_send self (JSON_stringify (VObj [("type", VStr "ping")]))
  else ret tt.

(** [wss.on('connection', (ws) => ...)]: the library hands over a new open
    socket; the closure starts with [userId = null] and a running
    interval.  Returns the socket. *)
Definition on_connection : M nat :=
  self <- gets (fun s => List.length (connections s)) ;;
  t <- setInterval self ;;
  modify (with_connections (fun l =>
    l ++ [{| conn_readyState := OPEN; conn_userId := KNull;
             conn_pingInterval := t |}])) ;;
  ret self.

(** [v && v !== 'null' ? v : 'N/A'], applied to [data.tailscaleIP]. *)
Definition normalize (v : value) : value :=
  if truthy v && negb (is_string v "null") then v else VStr "N/A".

(** Body of [if (data.type === 'register')]. *)
Definition register (self : nat) (data : value) : M unit :=
  uid <- lift (get data "userId") ;;
  userId <- reference uid ;;
  assign_userId self userId ;;
  ip <- lift (get data "tailscaleIP") ;;
  let tailscaleIp_ := normalize ip in
  existingClient <- clients_get userId ;;
  live <- and_open existingClient ;;
  match live with
  | Some _ =>
      console_log (DuplicateAttempt userId) ;;
      ws_send self
        (JSON_stringify
           (VObj [("type", VStr "error");
                  ("message",
                   VStr (String.append "User "
                          (String.append dquote
                            (String.append (ToString uid)
                              (String.append dquote
                                 " is already registered.")))))]))
  | None =>
      clients_delete userId ;;
      t <- gets (fun s => pingInterval_in s self) ;;
      clients_set userId
        {| ws := self; tailscaleIp := tailscaleIp_; pingInterval := t |} ;;
      console_log (Registered userId tailscaleIp_) ;;
      logConnectedUsers ;;
      ws_send self
        (JSON_stringify
           (VObj [("type", VStr "registered"); ("userId", uid);
                  ("tailscaleIp", tailscaleIp_)]))
  end.

(** Body of [if (data.type === 'message')]. *)
Definition relay_message (data : value) : M unit :=
  from <- lift (get data "from") ;;
  to <- lift (get data "to") ;;
  message <- lift (get data "message") ;;
  console_log (MessageReceived from to message) ;;
  k <- reference to ;;
  recipient <- clients_get k ;;
  live <- and_open recipient ;;
  match live with
  | Some r =>
      timestamp <- lift (get data "timestamp") ;;
      ws_send (ws r)
        (JSON_stringify
           (VObj [("type", VStr "message"); ("to", to); ("from", from);
                  ("message", message); ("timestamp", timestamp)])) ;;
      console_log (Forwarded to)
  | None => console_log (RecipientNotConnected to)
  end.

(** Body of [if (data.type === 'webrtc-signal')]. *)
Definition relay_signal (data : value) : M unit :=
  from <- lift (get data "from") ;;
  to <- lift (get data "to") ;;
  signalData <- lift (get data "data") ;;
  k <- reference to ;;
  recipient <- clients_get k ;;
  live <- and_open recipient ;;
  match live with
  | Some r =>
      ws_send (ws r)
        (JSON_stringify
           (VObj [("type", VStr "webrtc-signal"); ("from", from);
                  ("to", to); ("data", signalData)])) ;;
      signalType <- lift (get signalData "type") ;;
      console_log (Relayed signalType from to)
  | None => console_log (CouldNotRelay to)
  end.

(** [ws.on('message', (message) => ...)]. *)
Definition on_message (self : nat) (message : string) : M unit :=
  let stringMessage := message in
  console_log (ReceivedRaw stringMessage) ;;
  try_catch
    (data <- lift (match JSON_parse stringMessage with
                   | Some d => Normal d
                   | None => Throw SyntaxError
                   end) ;;
     console_log (Parsed data) ;;
     type1 <- lift (get data "type") ;;
     if is_string type1 "register" then register self data
     else
       type2 <- lift (get data "type") ;;
       if is_string type2 "message" then relay_message data
       else
         type3 <- lift (get data "type") ;;
         if is_string type3 "webrtc-signal" then relay_signal data
         else ret tt)
    (fun err => console_error (InvalidJSON err)).

(** [ws.on('close', () => ...)]. *)
Definition on_close (self : nat) : M unit :=
  t <- gets (fun s => pingInterval_in s self) ;;
  clearInterval t ;;
  userId <- gets (fun s => userId_in s self) ;;
  if key_truthy userId
  then
    clients_delete userId ;;
    console_log (Disconnected userId) ;;
    logConnectedUsers
  else ret tt.

(** [ws.on('error', (err) => ...)]. *)
Definition on_error (self : nat) (message : string) : M unit :=
  userId <- gets (fun s => userId_in s self) ;;
  console_error
    (WebSocketError (if key_truthy userId then Some userId else None)
                    message).

(** ** The event loop

    What the runtime can deliver: a new connection, a text frame, the
    [close] and [error] events of a socket, a firing of its interval, and a
    change of [readyState] made by the transport (a closing handshake or a
    dropped peer is seen in [readyState] before [close] is emitted).  The
    library sets [readyState] to [CLOSED] just before it emits [close].
    Events for a socket that was never accepted have no handler. *)
Definition accepted (s : server) (socket : nat) : bool :=
  (socket <? List.length (connections s))%nat.

Definition running (s : server) (t : nat) : bool :=
  existsb (fun t' => (t' =? t)%nat) (intervals s).

Definition step (ev : event) : M unit :=
  match ev with
  | Connection => on_connection ;; ret tt
  | Message w text =>
      ok <- gets (fun s => accepted s w) ;;
      if ok then on_message w text else ret tt
  | Close w =>
      ok <- gets (fun s => accepted s w) ;;
      if ok then set_readyState w CLOSED ;; on_close w else ret tt
  | Error w message =>
      ok <- gets (fun s => accepted s w) ;;
      if ok then on_error w message else ret tt
  | Interval w =>
      ok <- gets (fun s => accepted s w
                           && running s (pingInterval_in s w)) ;;
      if ok then ping w else ret tt
  | Transport w r => set_readyState w r
  end.

Fixpoint run (evs : list event) : M unit :=
  match evs with
  | [] => ret tt
  | ev :: rest => step ev ;; run rest
  end.

(** State and output of a run from the initial state. *)
Definition state_after (evs : list event) : server :=
  snd (fst (run evs initial)).
Definition output_of {A} (r : completion A * server * list effect)
  : list effect := snd r.
Definition state_of {A} (r : completion A * server * list effect)
  : server := snd (fst r).
Definition completion_of {A} (r : completion A * server * list effect)
  : completion A := fst (fst r).

(** The texts passed to [send], with their sockets, in order. *)
Fixpoint sends (out : list effect) : list (nat * string) :=
  match out with
  | [] => []
  | Send w text :: rest => (w, text) :: sends rest
  | _ :: rest => sends rest
  end.

(** ** The HTTP routes

    The strings of a request (a header value, the socket's remote address,
    a query parameter) are sequences of one-byte characters. *)

(** [s.includes(c)] for a one-character string [c]. *)
Fixpoint includes (c : ascii) (s : string) : bool :=
  match s with
  | EmptyString => false
  | String c' rest => (c' =? c)%char || includes c rest
  end.

(** [s.split(c)] for a one-character separator: the segments between the
    separators, never an empty array. *)
Fixpoint split_on (c : ascii) (s : string) : list string :=
  match s with
  | EmptyString => [EmptyString]
  | String c' rest =>
      if (c' =? c)%char then EmptyString :: split_on c rest
      else match split_on c rest with
           | first :: others => String c' first :: others
           | [] => [String c' EmptyString]
           end
  end.

(** The white space and line terminators of ECMAScript that fit in one byte:
    tab, line feed, vertical tab, form feed, carriage return, space and the
    no-break space. *)
Definition is_white_space (c : ascii) : bool :=
  let n := nat_of_ascii c in
  ((9 <=? n)%nat && (n <=? 13)%nat) || (n =? 32)%nat || (n =? 160)%nat.

Fixpoint trimStart (s : string) : string :=
  match s with
  | EmptyString => EmptyString
  | String c rest => if is_white_space c then trimStart rest else s
  end.

Fixpoint trimEnd (s : string) : string :=
  match s with
  | EmptyString => EmptyString
  | String c rest =>
      match trimEnd rest with
      | EmptyString => if is_white_space c then EmptyString
                       else String c EmptyString
      | kept => String c kept
      end
  end.

(** [s.trim()]. *)
Definition trim (s : string) : string := trimEnd (trimStart s).

(** [s.startsWith(p)]. *)
Definition startsWith (p s : string) : bool := String.prefix p s.

Fixpoint drop (n : nat) (s : string) : string :=
  match n, s with
  | 0, _ => s
  | S n', String _ rest => drop n' rest
  | S _, EmptyString => EmptyString
  end.

(** [s.replace(pattern, replacement)] for a string pattern: the first
    occurrence only. *)
Fixpoint replace_first (pattern replacement s : string) : string :=
  if String.prefix pattern s
  then String.append replacement (drop (String.length pattern) s)
  else match s with
       | EmptyString => EmptyString
       | String c rest => String c (replace_first pattern replacement rest)
       end.

(** [a || b] on a string that may be [undefined]. *)
Definition or_string (a : option string) (b : string) : string :=
  match a with
  | Some x => if x =? "" then b else x
  | None => b
  end.

(** One address of a network interface, as [os.networkInterfaces()] gives
    it under the interface's name. *)
Record iface := {
  address : string;
  family : string;
  internal : bool
}.

(** One entry of [getServerIps()]: [{ interface, address }]. *)
Record server_ip := {
  ip_interface : string;
  ip_address : string
}.

(** [getServerIps()]: the two nested [forEach] push onto [ips].  The
    interfaces come in the order [Object.keys] gives their names. *)
Definition getServerIps (interfaces : list (string * list iface))
  : list server_ip :=
  fold_left
    (fun ips entry =>
       fold_left
         (fun ips i =>
            if (family i =? "IPv4") && negb (internal i)
            then ips ++ [{| ip_interface := fst entry;
                            ip_address := address i |}]
            else ips)
         (snd entry) ips)
    interfaces [].

(** The [clientIp] of [app.get('/get-ip', ...)]: the [x-forwarded-for]
    header, else the remote address of the socket, else the empty string;
    cut at the first comma and trimmed; without a leading [::ffff:]. *)
Definition clientIp (forwarded remoteAddress : option string) : string :=
  let clientIp0 := or_string forwarded (or_string remoteAddress "") in
  let clientIp1 :=
    if includes "," clientIp0
    then trim (hd EmptyString (split_on "," clientIp0))
    else clientIp0 in
  if startsWith "::ffff:" clientIp1
  then replace_first "::ffff:" "" clientIp1
  else clientIp1.

(** What a route answers: [res.status(n).json(body)]. *)
Record response := {
  res_status : nat;
  res_body : value
}.

(** [app.get('/get-ip', ...)]. *)
Definition get_ip (interfaces : list (string * list iface))
           (forwarded remoteAddress : option string) : response :=
  let serverIps := getServerIps interfaces in
  {| res_status := 200;
     res_body :=
       VObj [("serverIps",
              VArr (map (fun e => VObj [("interface", VStr (ip_interface e));
                                        ("address", VStr (ip_address e))])
                        serverIps));
             ("clientIp", VStr (clientIp forwarded remoteAddress))] |}.

(** What [exec] hands to its callback. *)
Record exec_result := {
  exec_error : bool;
  exec_stdout : string;
  exec_stderr : string
}.

(** The one [console.error] of the routes, with the [stderr] it prints. *)
Inductive http_line := PingFailed (stderr : string).

(** [app.get('/ping', ...)], given the platform name, what [exec] does with
    a command, and [req.query.ip].  Returns the commands passed to [exec],
    the lines written to the console, and the answer. *)
Definition ping_route (platform : string) (exec : string -> exec_result)
           (ip : value) : list string * list http_line * response :=
  if negb (truthy ip)
  then ([], [],
        {| res_status := 400;
           res_body := VObj [("success", VBool false);
                             ("message", VStr "Missing IP address")] |})
  else
    let cmd := if platform =? "win32"
               then String.append "ping -n 1 " (ToString ip)
               else String.append "ping -c 1 " (ToString ip) in
    let result := exec cmd in
    if exec_error result
    then ([cmd], [PingFailed (exec_stderr result)],
          {| res_status := 500;
             res_body := VObj [("success", VBool false);
                               ("message", VStr "Ping failed");
                               ("error", VStr (exec_stderr result))] |})
    else ([cmd], [],
          {| res_status := 200;
             res_body := VObj [("success", VBool true);
                               ("message", VStr "Ping successful");
                               ("ip", ip)] |}).

(** ** Vocabulary of the properties *)

(** The record bound to [k] when its channel is open: what the guard
    [c && c.ws.readyState === WebSocket.OPEN] lets through for
    [c = clients.get(k)]. *)
Definition live (s : server) (k : key) : option client :=
  match Map_get key_eq_dec k (clients s) with
  | Some c => if is_OPEN (readyState_in s (ws c)) then Some c else None
  | None => None
  end.

(** The records of [k] whose channel is open. *)
Definition live_records (s : server) (k : key) : list (key * client) :=
  filter (fun e => same key_eq_dec k (fst e)
                   && is_OPEN (readyState_in s (ws (snd e))))
         (clients s).


(** Socket [w] holds a record. *)
Definition has_record (s : server) (w : nat) : Prop :=
  exists k c, In (k, c) (clients s) /\ ws c = w.

(** The keys of [clients] are pairwise distinct. *)
Definition distinct_keys (s : server) : Prop := NoDup (map fst (clients s)).

(** The bookkeeping of intervals: handles are given out in the order the
    connections are accepted, no interval runs whose handle was not given
    out, and a record carries the handle of the socket it names. *)
Definition consistent (s : server) : Prop :=
  next_interval s = List.length (connections s) /\
  (forall w c, nth_error (connections s) w = Some c ->
               conn_pingInterval c = w) /\
  (forall t, In t (intervals s) -> t < next_interval s) /\
  (forall k c, In (k, c) (clients s) ->
               pingInterval c = ws c /\
               ws c < List.length (connections s)).

(** [ev] is the [close] event of socket [w]. *)
Definition closes (w : nat) (ev : event) : bool :=
  match ev with
  | Close w' => (w' =? w)%nat
  | _ => false
  end.


(** A handler keeps [P]. *)
Definition preserves (P : server -> Prop) {A} (m : M A) : Prop :=
  forall s, P s -> P (state_of (m s)).

(** How many times [clearInterval t] was called. *)
Fixpoint cleared (t : nat) (out : list effect) : nat :=
  match out with
  | [] => 0
  | ClearInterval t' :: rest =>
      (if (t' =? t)%nat then 1 else 0) + cleared t rest
  | _ :: rest => cleared t rest
  end.

(** * Properties *)

(** ** The map *)

Lemma same_true (K : Type) (dec : forall a b : K, {a = b} + {a <> b}) a b :
  same dec a b = true <-> a = b.
Proof.
  unfold same. destruct (dec a b); split; congruence.
Qed.

Lemma same_refl (K : Type) (dec : forall a b : K, {a = b} + {a <> b}) a :
  same dec a a = true.
Proof. apply same_true. reflexivity. Qed.

Lemma same_false (K : Type) (dec : forall a b : K, {a = b} + {a <> b}) a b :
  same dec a b = false <-> a <> b.
Proof.
  unfold same. destruct (dec a b); split; congruence.
Qed.

Section MapFacts.
Variables K V : Type.
Variable dec : forall a b : K, {a = b} + {a <> b}.
Implicit Types (k : K) (v : V) (m : list (K * V)).

Lemma Map_get_None k m :
  Map_get dec k m = None <-> ~ In k (map fst m).
Proof.
  induction m as [|[k' v'] m IH]; simpl.
  - tauto.
  - destruct (same dec k k') eqn:E.
    + apply same_true in E. subst. split; [discriminate | tauto].
    + apply same_false in E. rewrite IH. split.
      * intros H [H1 | H1]; [congruence | tauto].
      * tauto.
Qed.


Lemma In_Map_get k v m :
  NoDup (map fst m) -> In (k, v) m -> Map_get dec k m = Some v.
Proof.
  induction m as [|[k' v'] m IH]; simpl; [tauto|].
  intros Hnd [H | H]; inversion Hnd; subst.
  - inversion H; subst. now rewrite same_refl.
  - destruct (same dec k k') eqn:E.
    + apply same_true in E. subst. exfalso.
      apply H2. change k' with (fst (k', v)). now apply in_map.
    + now apply IH.
Qed.

Lemma keys_delete k m :
  forall k', In k' (map fst (Map_delete dec k m)) <->
             k' <> k /\ In k' (map fst m).
Proof.
  intros k'. unfold Map_delete.
  induction m as [|[k0 v0] m IH]; simpl; [tauto|].
  destruct (same dec k k0) eqn:E; simpl.
  - apply same_true in E. subst. rewrite IH. intuition congruence.
  - apply same_false in E. rewrite IH. intuition congruence.
Qed.

Lemma Map_get_delete k m : Map_get dec k (Map_delete dec k m) = None.
Proof.
  apply Map_get_None. rewrite keys_delete. tauto.
Qed.

Lemma Map_get_delete_other k k' m :
  k' <> k -> Map_get dec k' (Map_delete dec k m) = Map_get dec k' m.
Proof.
  intros Hne. unfold Map_delete.
  induction m as [|[k0 v0] m IH]; simpl; [reflexivity|].
  destruct (same dec k k0) eqn:E; simpl.
  - apply same_true in E. subst.
    destruct (same dec k' k0) eqn:E'; [|exact IH].
    apply same_true in E'. congruence.
  - now rewrite IH.
Qed.

Lemma Map_set_absent k v m :
  Map_get dec k m = None -> Map_set dec k v m = m ++ [(k, v)].
Proof.
  induction m as [|[k' v'] m IH]; simpl; [reflexivity|].
  destruct (same dec k k'); [discriminate|].
  intros H. now rewrite IH.
Qed.

Lemma keys_set k v m :
  map fst (Map_set dec k v m)
  = match Map_get dec k m with
    | Some _ => map fst m
    | None => map fst m ++ [k]
    end.
Proof.
  induction m as [|[k' v'] m IH]; simpl; [reflexivity|].
  destruct (same dec k k') eqn:E; simpl.
  - apply same_true in E. now subst.
  - rewrite IH. now destruct (Map_get dec k m).
Qed.

Lemma Map_get_set_same k v m : Map_get dec k (Map_set dec k v m) = Some v.
Proof.
  induction m as [|[k' v'] m IH]; simpl.
  - now rewrite same_refl.
  - destruct (same dec k k') eqn:E; simpl.
    + now rewrite same_refl.
    + now rewrite E.
Qed.

Lemma Map_get_set_other k k' v m :
  k' <> k -> Map_get dec k' (Map_set dec k v m) = Map_get dec k' m.
Proof.
  intros Hne.
  assert (Hf : same dec k' k = false) by now apply same_false.
  induction m as [|[k0 v0] m IH]; simpl.
  - now rewrite Hf.
  - destruct (same dec k k0) eqn:E; simpl.
    + apply same_true in E. subst. now rewrite Hf.
    + now rewrite IH.
Qed.

Lemma NoDup_keys_delete k m :
  NoDup (map fst m) -> NoDup (map fst (Map_delete dec k m)).
Proof.
  unfold Map_delete.
  induction m as [|[k0 v0] m IH]; simpl; [trivial|].
  intros Hnd. inversion Hnd; subst.
  destruct (same dec k k0); simpl; [now apply IH|].
  constructor; [|now apply IH].
  intros Hin. apply (keys_delete k m) in Hin.
  destruct Hin as [_ Hin]. exact (H1 Hin).
Qed.

Lemma NoDup_keys_set k v m :
  NoDup (map fst m) -> NoDup (map fst (Map_set dec k v m)).
Proof.
  intros Hnd. rewrite keys_set.
  destruct (Map_get dec k m) eqn:E; [assumption|].
  apply Map_get_None in E.
  apply NoDup_app; repeat split; trivial.
  - constructor; [simpl; tauto | constructor].
  - intros a Ha [Hb | []]. congruence.
Qed.

Lemma In_Map_delete e k m : In e (Map_delete dec k m) -> In e m.
Proof. unfold Map_delete. intros H. now apply filter_In in H. Qed.

Lemma In_Map_set e k v m : In e (Map_set dec k v m) -> e = (k, v) \/ In e m.
Proof.
  induction m as [|[k' v'] m IH]; simpl.
  - intros [<- | []]. now left.
  - destruct (same dec k k'); simpl.
    + intros [<- | H]; auto.
    + intros [<- | H]; auto. destruct (IH H); auto.
Qed.

Lemma Map_size_of_absent k m :
  ~ In k (map fst m) -> Map_size_of dec k m = 0.
Proof.
  unfold Map_size_of.
  induction m as [|[k0 v0] m IH]; simpl; [reflexivity|].
  intros H. destruct (same dec k k0) eqn:E.
  - apply same_true in E. subst. tauto.
  - apply IH. tauto.
Qed.

Lemma Map_size_of_NoDup k m :
  NoDup (map fst m) -> Map_size_of dec k m <= 1.
Proof.
  induction m as [|[k0 v0] m IH]; simpl; [unfold Map_size_of; simpl; lia|].
  intros Hnd. inversion Hnd; subst.
  unfold Map_size_of in *. simpl.
  destruct (same dec k k0) eqn:E; simpl; [|now apply IH].
  apply same_true in E. subst.
  pose proof (Map_size_of_absent k0 m H1) as H0.
  unfold Map_size_of in H0. rewrite H0. lia.
Qed.

End MapFacts.

(** ** Connections *)

Lemma nth_error_update i j f (l : list connection) :
  nth_error (update i f l) j
  = if (i =? j)%nat then option_map f (nth_error l j) else nth_error l j.
Proof.
  revert i j. induction l as [|c l IH]; intros i j.
  - destruct i, j; simpl; trivial. now destruct (i =? j)%nat.
  - destruct i, j; simpl; trivial.
Qed.

Lemma length_update i f (l : list connection) :
  List.length (update i f l) = List.length l.
Proof.
  revert i. induction l as [|c l IH]; intros [|i]; simpl; auto.
Qed.

(** ** Outputs *)

Lemma sends_app (a b : list effect) : sends (a ++ b) = sends a ++ sends b.
Proof.
  induction a as [|[] a IH]; simpl; trivial. now rewrite IH.
Qed.

Lemma sends_console (l : list line) : sends (map Console l) = [].
Proof. induction l; simpl; trivial. Qed.

Lemma sends_users (s : server) (m : list (key * client)) :
  sends (map (fun e => Console (ConnectedUser (fst e) (tailscaleIp (snd e))
                                  (readyState_in s (ws (snd e))))) m) = [].
Proof. induction m; simpl; trivial. Qed.

(** ** Reading properties *)

Lemma get_string (data : value) name x :
  get data name = Normal (VStr x) ->
  exists props, data = VObj props /\ assoc name props = VStr x.
Proof.
  destruct data; simpl; try discriminate.
  intros [= H]. eauto.
Qed.

Lemma get_object props name : get (VObj props) name = Normal (assoc name props).
Proof. reflexivity. Qed.

(** ** The [message] handler, branch by branch *)

(** The handler logs the frame, runs the branch its [type] selects, and
    turns an exception of the branch into a console line. *)
Lemma on_message_dispatch self text data ty s :
  JSON_parse text = Some data ->
  get data "type" = Normal ty ->
  on_message self text s =
  let '(r, s', out) :=
    (if is_string ty "register" then register self data
     else if is_string ty "message" then relay_message data
     else if is_string ty "webrtc-signal" then relay_signal data
     else ret tt) s in
  (Normal tt, s',
   [Console (ReceivedRaw text); Console (Parsed data)] ++ out ++
   match r with
   | Normal _ => []
   | Throw e => [Console (InvalidJSON e)]
   end).
Proof.
  intros Hp Ht.
  unfold on_message, try_catch, bind, lift, console_log, console_error, emit.
  rewrite Hp, Ht. simpl.
  destruct (is_string ty "register");
    [|destruct (is_string ty "message");
      [|destruct (is_string ty "webrtc-signal")]].
  - destruct (register self data s) as [[[[]|e] s'] out]; simpl;
      now rewrite ?app_nil_r.
  - destruct (relay_message data s) as [[[[]|e] s'] out]; simpl;
      now rewrite ?app_nil_r.
  - destruct (relay_signal data s) as [[[[]|e] s'] out]; simpl;
      now rewrite ?app_nil_r.
  - reflexivity.
Qed.

Lemma on_message_malformed self text s :
  JSON_parse text = None ->
  on_message self text s =
  (Normal tt, s,
   [Console (ReceivedRaw text); Console (InvalidJSON SyntaxError)]).
Proof.
  intros Hp.
  unfold on_message, try_catch, bind, lift, console_log, console_error, emit.
  now rewrite Hp.
Qed.

Lemma on_message_no_type self text data e s :
  JSON_parse text = Some data ->
  get data "type" = Throw e ->
  on_message self text s =
  (Normal tt, s,
   [Console (ReceivedRaw text); Console (Parsed data);
    Console (InvalidJSON e)]).
Proof.
  intros Hp Ht.
  unfold on_message, try_catch, bind, lift, console_log, console_error, emit.
  now rewrite Hp, Ht.
Qed.

(** Assigning [userId] or moving [readyState] leaves the rest of a
    connection alone. *)
Lemma readyState_in_userId s self k w (f : server -> server) :
  connections (f s) = connections s ->
  readyState_in
    (with_connections
       (update self (fun c =>
          {| conn_readyState := conn_readyState c; conn_userId := k;
             conn_pingInterval := conn_pingInterval c |})) (f s)) w
  = readyState_in s w.
Proof.
  intros Hf. unfold readyState_in, with_connections. simpl.
  rewrite nth_error_update, Hf.
  destruct (self =? w)%nat; trivial.
  now destruct (nth_error (connections s) w).
Qed.

Lemma pingInterval_in_userId s self k w (f : server -> server) :
  connections (f s) = connections s ->
  pingInterval_in
    (with_connections
       (update self (fun c =>
          {| conn_readyState := conn_readyState c; conn_userId := k;
             conn_pingInterval := conn_pingInterval c |})) (f s)) w
  = pingInterval_in s w.
Proof.
  intros Hf. unfold pingInterval_in, with_connections. simpl.
  rewrite nth_error_update, Hf.
  destruct (self =? w)%nat; trivial.
  now destruct (nth_error (connections s) w).
Qed.

Lemma register_run self props s :
  let uid := assoc "userId" props in
  let k := key_at (next_addr s) uid in
  let ip := normalize (assoc "tailscaleIP" props) in
  let s1 :=
    with_connections
      (update self (fun c =>
         {| conn_readyState := conn_readyState c; conn_userId := k;
            conn_pingInterval := conn_pingInterval c |}))
      ((if is_object uid then with_next_addr (S (next_addr s))
        else fun s => s) s) in
  register self (VObj props) s =
  match
    match Map_get key_eq_dec k (clients s) with
    | Some c => if is_OPEN (readyState_in s (ws c)) then Some c else None
    | None => None
    end
  with
  | Some _ =>
      (Normal tt, s1,
       [Console (DuplicateAttempt k);
        Send self
          (JSON_stringify
             (VObj [("type", VStr "error");
                    ("message",
                     VStr (String.append "User "
                            (String.append dquote
                              (String.append (ToString uid)
                                (String.append dquote
                                   " is already registered.")))))]))])
  | None =>
      let s2 :=
        with_clients
          (fun m =>
             Map_set key_eq_dec k
               {| ws := self; tailscaleIp := ip;
                  pingInterval := pingInterval_in s self |}
               (Map_delete key_eq_dec k m)) s1 in
      (Normal tt, s2,
       [Console (Registered k ip); Console ConnectedUsers] ++
       map (fun e => Console (ConnectedUser (fst e) (tailscaleIp (snd e))
                                (readyState_in s2 (ws (snd e)))))
           (clients s2) ++
       [Send self
          (JSON_stringify
             (VObj [("type", VStr "registered"); ("userId", uid);
                    ("tailscaleIp", ip)]))])
  end.
Proof.
  intros uid k ip s1.
  assert (Hrs : forall w, readyState_in s1 w = readyState_in s w).
  { intros w. apply readyState_in_userId. now destruct (is_object uid). }
  assert (Hpi : pingInterval_in s1 self = pingInterval_in s self).
  { apply pingInterval_in_userId. now destruct (is_object uid). }
  assert (Hcl : clients s1 = clients s) by now destruct (is_object uid).
  assert (Href : reference uid s
                 = (Normal k,
                    (if is_object uid then with_next_addr (S (next_addr s))
                     else fun s => s) s, [])).
  { unfold reference, bind, gets, modify, ret, k.
    now destruct (is_object uid). }
  unfold register.
  rewrite !get_object. fold uid. fold ip.
  unfold bind at 1. unfold lift at 1. cbv iota beta.
  unfold bind at 1. rewrite Href. cbv iota beta.
  unfold bind at 1. unfold assign_userId at 1, modify at 1. cbv iota beta.
  fold s1.
  unfold bind at 1. unfold lift at 1. cbv iota beta.
  unfold bind at 1. unfold clients_get at 1, gets at 1. cbv iota beta.
  rewrite Hcl.
  destruct (Map_get key_eq_dec k (clients s)) as [c|].
  - unfold bind at 1. unfold and_open at 1, readyState, bind, gets, ret.
    cbv iota beta. rewrite Hrs.
    destruct (is_OPEN (readyState_in s (ws c))).
    + reflexivity.
    + unfold clients_delete, clients_set, logConnectedUsers, console_log,
        ws_send, emit, modify. cbv iota beta. rewrite <- Hpi. reflexivity.
  - unfold and_open, clients_delete, clients_set, logConnectedUsers,
      console_log, ws_send, emit, modify, bind, gets, ret.
    cbv iota beta. rewrite <- Hpi. reflexivity.
Qed.

Lemma reference_run (v : value) s :
  reference v s
  = (Normal (key_at (next_addr s) v),
     (if is_object v then with_next_addr (S (next_addr s))
      else fun s => s) s, []).
Proof.
  unfold reference, bind, gets, modify, ret. now destruct (is_object v).
Qed.

Lemma readyState_in_next_addr (v : value) s w :
  readyState_in
    ((if is_object v then with_next_addr (S (next_addr s))
      else fun s => s) s) w
  = readyState_in s w.
Proof. now destruct (is_object v). Qed.

Lemma clients_next_addr (v : value) s :
  clients ((if is_object v then with_next_addr (S (next_addr s))
            else fun s => s) s)
  = clients s.
Proof. now destruct (is_object v). Qed.

Lemma relay_message_run props s :
  let from := assoc "from" props in
  let to := assoc "to" props in
  let message := assoc "message" props in
  let timestamp := assoc "timestamp" props in
  let k := key_at (next_addr s) to in
  let s1 := (if is_object to then with_next_addr (S (next_addr s))
             else fun s => s) s in
  relay_message (VObj props) s =
  (Normal tt, s1,
   Console (MessageReceived from to message) ::
   match
     match Map_get key_eq_dec k (clients s) with
     | Some c => if is_OPEN (readyState_in s (ws c)) then Some c else None
     | None => None
     end
   with
   | Some r =>
       [Send (ws r)
          (JSON_stringify
             (VObj [("type", VStr "message"); ("to", to); ("from", from);
                    ("message", message); ("timestamp", timestamp)]));
        Console (Forwarded to)]
   | None => [Console (RecipientNotConnected to)]
   end).
Proof.
  intros from to message timestamp k s1.
  unfold relay_message.
  rewrite !get_object. fold from to message timestamp.
  unfold bind at 1. unfold lift at 1. cbv iota beta.
  unfold bind at 1. unfold lift at 1. cbv iota beta.
  unfold bind at 1. unfold lift at 1. cbv iota beta.
  unfold bind at 1. unfold console_log at 1, emit at 1. cbv iota beta.
  unfold bind at 1. rewrite reference_run. fold k s1. cbv iota beta.
  unfold bind at 1. unfold clients_get at 1, gets at 1. cbv iota beta.
  unfold s1 at 1. rewrite clients_next_addr.
  destruct (Map_get key_eq_dec k (clients s)) as [c|].
  - unfold bind at 1. unfold and_open at 1, readyState, bind, gets, ret.
    cbv iota beta. unfold s1 at 1. rewrite readyState_in_next_addr.
    destruct (is_OPEN (readyState_in s (ws c))); reflexivity.
  - reflexivity.
Qed.

Lemma relay_signal_run props s :
  let from := assoc "from" props in
  let to := assoc "to" props in
  let signalData := assoc "data" props in
  let k := key_at (next_addr s) to in
  let s1 := (if is_object to then with_next_addr (S (next_addr s))
             else fun s => s) s in
  relay_signal (VObj props) s =
  match
    match Map_get key_eq_dec k (clients s) with
    | Some c => if is_OPEN (readyState_in s (ws c)) then Some c else None
    | None => None
    end
  with
  | Some r =>
      (match get signalData "type" with
       | Normal _ => Normal tt
       | Throw e => Throw e
       end, s1,
       Send (ws r)
         (JSON_stringify
            (VObj [("type", VStr "webrtc-signal"); ("from", from);
                   ("to", to); ("data", signalData)])) ::
       match get signalData "type" with
       | Normal signalType => [Console (Relayed signalType from to)]
       | Throw _ => []
       end)
  | None => (Normal tt, s1, [Console (CouldNotRelay to)])
  end.
Proof.
  intros from to signalData k s1.
  unfold relay_signal.
  rewrite !get_object. fold from to signalData.
  unfold bind at 1. unfold lift at 1. cbv iota beta.
  unfold bind at 1. unfold lift at 1. cbv iota beta.
  unfold bind at 1. unfold lift at 1. cbv iota beta.
  unfold bind at 1. rewrite reference_run. fold k s1. cbv iota beta.
  unfold bind at 1. unfold clients_get at 1, gets at 1. cbv iota beta.
  unfold s1 at 1. rewrite clients_next_addr.
  destruct (Map_get key_eq_dec k (clients s)) as [c|].
  - unfold bind at 1. unfold and_open at 1, readyState, bind, gets, ret.
    cbv iota beta. unfold s1 at 1. rewrite readyState_in_next_addr.
    destruct (is_OPEN (readyState_in s (ws c))); [|reflexivity].
    unfold ws_send, console_log, emit, lift. cbv iota beta.
    destruct (get signalData "type"); reflexivity.
  - reflexivity.
Qed.

(** ** Registration *)

(** A [register] frame is refused when its identity has a live record. *)
Lemma register_refused self text props c s :
  let uid := assoc "userId" props in
  let k := key_at (next_addr s) uid in
  JSON_parse text = Some (VObj props) ->
  assoc "type" props = VStr "register" ->
  live s k = Some c ->
  let r := on_message self text s in
  completion_of r = Normal tt /\
  clients (state_of r) = clients s /\
  sends (output_of r)
  = [(self,
      JSON_stringify
        (VObj [("type", VStr "error");
               ("message",
                VStr (String.append "User "
                       (String.append dquote
                         (String.append (ToString uid)
                           (String.append dquote
                              " is already registered.")))))]))].
Proof.
  intros uid k Hp Ht Hl r. subst r.
  rewrite (on_message_dispatch self s Hp (get_object props "type")).
  rewrite Ht. cbn [is_string]. rewrite String.eqb_refl.
  rewrite register_run. fold uid k. unfold live in Hl. rewrite Hl.
  cbv zeta. unfold completion_of, state_of, output_of.
  cbn [fst snd]. repeat split.
  - unfold with_connections. cbn [clients]. apply clients_next_addr.
Qed.

(** A [register] frame is accepted when its identity has no live record. *)
Lemma register_accepted self text props s :
  let uid := assoc "userId" props in
  let k := key_at (next_addr s) uid in
  let ip := normalize (assoc "tailscaleIP" props) in
  let record := {| ws := self; tailscaleIp := ip;
                   pingInterval := pingInterval_in s self |} in
  JSON_parse text = Some (VObj props) ->
  assoc "type" props = VStr "register" ->
  live s k = None ->
  let r := on_message self text s in
  completion_of r = Normal tt /\
  clients (state_of r) = Map_delete key_eq_dec k (clients s) ++ [(k, record)] /\
  sends (output_of r)
  = [(self,
      JSON_stringify
        (VObj [("type", VStr "registered"); ("userId", uid);
               ("tailscaleIp", ip)]))] /\
  (forall w, readyState_in (state_of r) w = readyState_in s w).
Proof.
  intros uid k ip record Hp Ht Hl r. subst r.
  rewrite (on_message_dispatch self s Hp (get_object props "type")).
  rewrite Ht. cbn [is_string]. rewrite String.eqb_refl.
  rewrite register_run. fold uid k ip. unfold live in Hl. rewrite Hl.
  cbv zeta. unfold completion_of, state_of, output_of.
  cbn [fst snd]. repeat split.
  - unfold with_clients, with_connections. cbn [clients].
    rewrite clients_next_addr.
    apply Map_set_absent, Map_get_delete.
  - rewrite !sends_app, sends_users. reflexivity.
  - intros w. unfold with_clients at 1.
    unfold readyState_in at 1. cbn [connections].
    apply (readyState_in_userId s self k w).
    now destruct (is_object uid).
Qed.

(** ** Routing *)

Lemma message_routed self text props s :
  let to := assoc "to" props in
  JSON_parse text = Some (VObj props) ->
  assoc "type" props = VStr "message" ->
  let r := on_message self text s in
  completion_of r = Normal tt /\
  clients (state_of r) = clients s /\
  sends (output_of r)
  = match live s (key_at (next_addr s) to) with
    | Some c =>
        [(ws c,
          JSON_stringify
            (VObj [("type", VStr "message"); ("to", to);
                   ("from", assoc "from" props);
                   ("message", assoc "message" props);
                   ("timestamp", assoc "timestamp" props)]))]
    | None => []
    end.
Proof.
  intros to Hp Ht r. subst r.
  rewrite (on_message_dispatch self s Hp (get_object props "type")).
  rewrite Ht. simpl (is_string _ _). cbv iota.
  rewrite relay_message_run. fold to. cbv zeta.
  unfold completion_of, state_of, output_of. cbn [fst snd].
  repeat split.
  - apply clients_next_addr.
  - unfold live.
    destruct (Map_get key_eq_dec (key_at (next_addr s) to) (clients s))
      as [c|]; [|reflexivity].
    destruct (is_OPEN (readyState_in s (ws c))); reflexivity.
Qed.

Lemma signal_routed self text props s :
  let to := assoc "to" props in
  JSON_parse text = Some (VObj props) ->
  assoc "type" props = VStr "webrtc-signal" ->
  let r := on_message self text s in
  completion_of r = Normal tt /\
  clients (state_of r) = clients s /\
  sends (output_of r)
  = match live s (key_at (next_addr s) to) with
    | Some c =>
        [(ws c,
          JSON_stringify
            (VObj [("type", VStr "webrtc-signal");
                   ("from", assoc "from" props); ("to", to);
                   ("data", assoc "data" props)]))]
    | None => []
    end.
Proof.
  intros to Hp Ht r. subst r.
  rewrite (on_message_dispatch self s Hp (get_object props "type")).
  rewrite Ht. simpl (is_string _ _). cbv iota.
  rewrite relay_signal_run. fold to. unfold live.
  destruct (Map_get key_eq_dec (key_at (next_addr s) to) (clients s))
    as [c|].
  - destruct (is_OPEN (readyState_in s (ws c))).
    + cbv zeta. unfold completion_of, state_of, output_of. cbn [fst snd].
      repeat split; [apply clients_next_addr|].
      destruct (get (assoc "data" props) "type"); reflexivity.
    + cbv zeta. unfold completion_of, state_of, output_of. cbn [fst snd].
      repeat split. apply clients_next_addr.
  - cbv zeta. unfold completion_of, state_of, output_of. cbn [fst snd].
    repeat split. apply clients_next_addr.
Qed.

(** ** The handler never throws *)

Lemma on_message_completes self text s :
  completion_of (on_message self text s) = Normal tt.
Proof.
  unfold on_message.
  match goal with
  | |- context [try_catch ?b _] => generalize b
  end.
  intros body.
  unfold bind, try_catch, console_log, console_error, emit, completion_of.
  cbv iota beta.
  destruct (body s) as [[[[]|e] s'] out]; reflexivity.
Qed.

(** ** Single frames *)

(** C5: a [register] frame naming an identity [X] whose record is bound to an
    open channel is refused: the requester, and nobody else, is sent the
    [error] envelope whose [message] is [User], then [X] between double
    quotes, then [is already registered.]; the registry is left as it was,
    and [X] stays bound to its record. *)
Theorem duplicate_registration_rejected self text props X c s :
  JSON_parse text = Some (VObj props) ->
  assoc "type" props = VStr "register" ->
  assoc "userId" props = VStr X ->
  Map_get key_eq_dec (KStr X) (clients s) = Some c ->
  readyState_in s (ws c) = OPEN ->
  let r := on_message self text s in
  completion_of r = Normal tt /\
  sends (output_of r)
  = [(self,
      JSON_stringify
        (VObj [("type", VStr "error");
               ("message",
                VStr (String.append "User "
                       (String.append dquote
                         (String.append X
                           (String.append dquote
                              " is already registered.")))))]))] /\
  clients (state_of r) = clients s /\
  Map_get key_eq_dec (KStr X) (clients (state_of r)) = Some c.
Proof.
  intros Hp Ht Hu Hg Ho r.
  assert (Hl : live s (key_at (next_addr s) (assoc "userId" props)) = Some c).
  { rewrite Hu. unfold live. cbn [key_at]. now rewrite Hg, Ho. }
  destruct (register_refused self s Hp Ht Hl) as (Hc & Hcl & Hs).
  fold r in Hc, Hcl, Hs. rewrite Hu in Hs. cbn [ToString] in Hs.
  repeat split; trivial. now rewrite Hcl.
Qed.



(** C8: the [message] handler returns normally on every text.  A text that
    [JSON.parse] rejects, and a text whose decoded [type] is none of
    [register], [message], [webrtc-signal] (or that decodes to [null], which
    has no [type]), changes nothing in the server and sends nothing. *)
Theorem unrecognised_frame_dropped self text s :
  let r := on_message self text s in
  completion_of r = Normal tt /\
  (JSON_parse text = None \/
   (exists data,
      JSON_parse text = Some data /\
      forall ty, get data "type" = Normal ty ->
                 is_string ty "register" = false /\
                 is_string ty "message" = false /\
                 is_string ty "webrtc-signal" = false) ->
   state_of r = s /\ sends (output_of r) = []).
Proof.
  intros r. split; [apply on_message_completes|].
  intros [Hp | (data & Hp & Hty)]; subst r.
  - now rewrite (on_message_malformed self s Hp).
  - destruct (get data "type") as [ty|e] eqn:Ht.
    + destruct (Hty ty eq_refl) as (H1 & H2 & H3).
      rewrite (on_message_dispatch self s Hp Ht), H1, H2, H3.
      split; reflexivity.
    + now rewrite (on_message_no_type self s Hp Ht).
Qed.


(** ** Invariants of the event loop *)

Section Preservation.
Variable P : server -> Prop.

Lemma preserves_ret A (a : A) : preserves P (ret a).
Proof. intros s Hs. exact Hs. Qed.

Lemma preserves_lift A (c : completion A) : preserves P (lift c).
Proof. intros s Hs. exact Hs. Qed.

Lemma preserves_gets A (f : server -> A) : preserves P (gets f).
Proof. intros s Hs. exact Hs. Qed.

Lemma preserves_emit e : preserves P (emit e).
Proof. intros s Hs. exact Hs. Qed.

Lemma preserves_modify f :
  (forall s, P s -> P (f s)) -> preserves P (modify f).
Proof. intros Hf s Hs. now apply Hf. Qed.

Lemma preserves_bind A B (m : M A) (f : A -> M B) :
  preserves P m -> (forall a, preserves P (f a)) -> preserves P (bind m f).
Proof.
  intros Hm Hf s Hs. specialize (Hm s Hs).
  unfold bind, state_of in *.
  destruct (m s) as [[[a|e] s1] out1]; simpl in *; trivial.
  specialize (Hf a s1 Hm). unfold state_of in Hf.
  now destruct (f a s1) as [[r s2] out2].
Qed.

Lemma preserves_try_catch body handler :
  preserves P body -> (forall e, preserves P (handler e)) ->
  preserves P (try_catch body handler).
Proof.
  intros Hm Hf s Hs. specialize (Hm s Hs).
  unfold try_catch, state_of in *.
  destruct (body s) as [[[a|e] s1] out1]; simpl in *; trivial.
  specialize (Hf e s1 Hm). unfold state_of in Hf.
  now destruct (handler e s1) as [[r s2] out2].
Qed.

Lemma preserves_logConnectedUsers : preserves P logConnectedUsers.
Proof.
  unfold logConnectedUsers.
  apply preserves_bind; [apply preserves_emit|].
  intros _ s Hs. exact Hs.
Qed.

End Preservation.

Ltac preserve :=
  repeat lazymatch goal with
    | |- preserves _ (bind _ _) => apply preserves_bind; [|intros ?]
    | |- preserves _ (ret _) => apply preserves_ret
    | |- preserves _ (lift _) => apply preserves_lift
    | |- preserves _ (gets _) => apply preserves_gets
    | |- preserves _ (emit _) => apply preserves_emit
    | |- preserves _ (try_catch _ _) =>
        apply preserves_try_catch; [|intros ?]
    | |- preserves _ logConnectedUsers => apply preserves_logConnectedUsers
    | |- preserves _ (modify _) => apply preserves_modify
    | |- preserves _ (if ?b then _ else _) => destruct b
    | |- preserves _ (match ?x with _ => _ end) => destruct x
    end.

Ltac handlers :=
  unfold step, on_message, register, relay_message, relay_signal,
    on_close, on_error, on_connection, ping, and_open, reference,
    assign_userId, set_readyState, clients_get, clients_delete, clients_set,
    setInterval, clearInterval, readyState, ws_send, console_log,
    console_error;
  cbv zeta.

Lemma step_distinct_keys ev : preserves distinct_keys (step ev).
Proof.
  destruct ev; handlers; preserve;
    try (intros s Hs; exact Hs);
    intros s Hs; unfold distinct_keys in *; cbn [clients with_clients];
    auto using NoDup_keys_delete, NoDup_keys_set.
Qed.

Lemma run_preserves (P : server -> Prop) :
  (forall ev, preserves P (step ev)) -> forall evs, preserves P (run evs).
Proof.
  intros Hstep evs. induction evs as [|ev evs IH]; simpl.
  - apply preserves_ret.
  - apply preserves_bind; [apply Hstep | intros _; exact IH].
Qed.

(** C9: after any sequence of connections, frames, closes, errors, timer
    firings and transport changes, [clients] holds at most one record per
    identity, hence at most one whose channel is open. *)
Theorem one_record_per_identity (evs : list event) (k : key) :
  let s := state_of (run evs initial) in
  Map_size_of key_eq_dec k (clients s) <= 1 /\
  List.length (live_records s k) <= 1.
Proof.
  intros s.
  assert (Hnd : distinct_keys s).
  { apply (run_preserves step_distinct_keys). constructor. }
  pose proof (@Map_size_of_NoDup _ _ key_eq_dec k _ Hnd) as Hone.
  split; [exact Hone|].
  enough (List.length (live_records s k)
          <= Map_size_of key_eq_dec k (clients s)) by lia.
  unfold live_records, Map_size_of.
  generalize (clients s). intros m.
  induction m as [|e m IH]; simpl; [lia|].
  destruct (same key_eq_dec k (fst e)); simpl; [|exact IH].
  destruct (is_OPEN (readyState_in s (ws (snd e)))); simpl; lia.
Qed.

(** ** Runs *)

Lemma step_completes ev s : completion_of (step ev s) = Normal tt.
Proof.
  destruct ev as [|w text|w|w message|w|w r]; unfold step.
  - reflexivity.
  - unfold bind at 1, gets at 1. cbv iota beta.
    destruct (accepted s w); [|reflexivity].
    pose proof (on_message_completes w text s) as H.
    unfold completion_of in *.
    destruct (on_message w text s) as [[c s'] out]. simpl in *. now subst.
  - unfold bind at 1, gets at 1. cbv iota beta.
    destruct (accepted s w); [|reflexivity].
    unfold on_close, set_readyState, clearInterval, clients_delete,
      logConnectedUsers, console_log, emit, modify, gets, bind, ret,
      completion_of.
    cbv iota beta.
    match goal with |- context [key_truthy ?k] => destruct (key_truthy k) end;
      reflexivity.
  - unfold bind at 1, gets at 1. cbv iota beta.
    destruct (accepted s w); reflexivity.
  - unfold bind at 1, gets at 1. cbv iota beta.
    destruct (accepted s w && running s (pingInterval_in s w));
      [|reflexivity].
    unfold ping, readyState, ws_send, emit, gets, bind, ret, completion_of.
    cbv iota beta. now destruct (is_OPEN (readyState_in s w)).
  - reflexivity.
Qed.

Lemma run_cons ev evs s :
  run (ev :: evs) s
  = (completion_of (run evs (state_of (step ev s))),
     state_of (run evs (state_of (step ev s))),
     output_of (step ev s) ++ output_of (run evs (state_of (step ev s)))).
Proof.
  pose proof (step_completes ev s) as H.
  simpl. unfold bind, completion_of, state_of, output_of in *.
  destruct (step ev s) as [[c s1] out1]. simpl in *. subst c.
  now destruct (run evs s1) as [[c2 s2] out2].
Qed.

Lemma state_of_run_cons ev evs s :
  state_of (run (ev :: evs) s) = state_of (run evs (state_of (step ev s))).
Proof. now rewrite run_cons. Qed.

Lemma run_completes evs s : completion_of (run evs s) = Normal tt.
Proof.
  revert s. induction evs as [|ev evs IH]; intros s; [reflexivity|].
  rewrite run_cons. apply IH.
Qed.

Lemma run_app_state evs1 evs2 s :
  state_of (run (evs1 ++ evs2) s) = state_of (run evs2 (state_of (run evs1 s))).
Proof.
  revert s. induction evs1 as [|ev evs1 IH]; intros s; [reflexivity|].
  rewrite <- app_comm_cons, !run_cons. apply IH.
Qed.

(** ** The states a frame can lead to *)

Lemma on_message_state (Q : server -> Prop) self text s :
  Q s ->
  (forall v : value,
      Q ((if is_object v then with_next_addr (S (next_addr s))
          else fun s => s) s)) ->
  (forall (v : value) k,
      Q (with_connections
           (update self (fun c =>
              {| conn_readyState := conn_readyState c; conn_userId := k;
                 conn_pingInterval := conn_pingInterval c |}))
           ((if is_object v then with_next_addr (S (next_addr s))
             else fun s => s) s))) ->
  (forall (v : value) k ip,
      Q (with_clients
           (fun m =>
              Map_set key_eq_dec k
                {| ws := self; tailscaleIp := ip;
                   pingInterval := pingInterval_in s self |}
                (Map_delete key_eq_dec k m))
           (with_connections
              (update self (fun c =>
                 {| conn_readyState := conn_readyState c; conn_userId := k;
                    conn_pingInterval := conn_pingInterval c |}))
              ((if is_object v then with_next_addr (S (next_addr s))
                else fun s => s) s)))) ->
  Q (state_of (on_message self text s)).
Proof.
  intros Hs Hbump Hassign Hinsert.
  destruct (JSON_parse text) as [data|] eqn:Hp;
    [|now rewrite (on_message_malformed self s Hp)].
  destruct (get data "type") as [ty|e] eqn:Ht;
    [|now rewrite (on_message_no_type self s Hp Ht)].
  rewrite (on_message_dispatch self s Hp Ht).
  assert (Hobj : forall lit, is_string ty lit = true ->
                             exists props, data = VObj props).
  { intros lit Hlit. destruct ty; try discriminate.
    destruct (get_string _ _ Ht) as (props & -> & _). eauto. }
  destruct (is_string ty "register") eqn:H1.
  { destruct (Hobj _ H1) as (props & ->). rewrite register_run.
    cbv zeta.
    match goal with
    | |- context [match ?x with Some _ => _ | None => _ end] => destruct x
    end; unfold state_of; cbn [fst snd]; auto. }
  destruct (is_string ty "message") eqn:H2.
  { destruct (Hobj _ H2) as (props & ->). rewrite relay_message_run.
    cbv zeta. unfold state_of; cbn [fst snd]; auto. }
  destruct (is_string ty "webrtc-signal") eqn:H3.
  { destruct (Hobj _ H3) as (props & ->). rewrite relay_signal_run.
    cbv zeta.
    match goal with
    | |- context [match ?x with Some _ => _ | None => _ end] => destruct x
    end; unfold state_of; cbn [fst snd]; auto. }
  exact Hs.
Qed.

(** ** The [close] event *)

Lemma close_run w s :
  accepted s w = true ->
  let t := pingInterval_in s w in
  let userId := userId_in s w in
  let s1 :=
    with_intervals (filter (fun t' => negb (t' =? t)%nat))
      (with_connections
         (update w (fun c =>
            {| conn_readyState := CLOSED; conn_userId := conn_userId c;
               conn_pingInterval := conn_pingInterval c |})) s) in
  step (Close w) s =
  if key_truthy userId
  then
    let s2 := with_clients (Map_delete key_eq_dec userId) s1 in
    (Normal tt, s2,
     ClearInterval t :: Console (Disconnected userId) ::
     Console ConnectedUsers ::
     map (fun e => Console (ConnectedUser (fst e) (tailscaleIp (snd e))
                              (readyState_in s2 (ws (snd e)))))
         (clients s2))
  else (Normal tt, s1, [ClearInterval t]).
Proof.
  intros Hacc t userId s1.
  assert (Ht : pingInterval_in
                 (with_connections
                    (update w (fun c =>
                       {| conn_readyState := CLOSED;
                          conn_userId := conn_userId c;
                          conn_pingInterval := conn_pingInterval c |})) s) w
               = t).
  { unfold pingInterval_in, with_connections. cbn [connections].
    rewrite nth_error_update, Nat.eqb_refl. subst t. unfold pingInterval_in.
    now destruct (nth_error (connections s) w). }
  assert (Hu : userId_in s1 w = userId).
  { unfold userId_in, s1, with_intervals, with_connections.
    cbn [connections].
    rewrite nth_error_update, Nat.eqb_refl. subst userId. unfold userId_in.
    now destruct (nth_error (connections s) w). }
  unfold step. unfold bind at 1, gets at 1. cbv iota beta. rewrite Hacc.
  unfold bind at 1. unfold set_readyState at 1, modify at 1. cbv iota beta.
  unfold on_close.
  unfold bind at 1, gets at 1. cbv iota beta. rewrite Ht.
  unfold bind at 1. unfold clearInterval at 1, bind at 1, modify at 1,
    emit at 1. cbv iota beta. fold s1.
  unfold bind at 1, gets at 1. cbv iota beta. rewrite Hu.
  destruct (key_truthy userId); reflexivity.
Qed.

(** ** Consistency of the interval bookkeeping *)

Lemma pingInterval_in_accepted s w :
  consistent s -> accepted s w = true -> pingInterval_in s w = w.
Proof.
  intros (_ & Hc & _) Hacc. unfold pingInterval_in.
  destruct (nth_error (connections s) w) as [c|] eqn:E; [eauto|].
  apply nth_error_None in E. apply Nat.ltb_lt in Hacc. lia.
Qed.

Lemma consistent_update s w f :
  (forall c, conn_pingInterval (f c) = conn_pingInterval c) ->
  consistent s -> consistent (with_connections (update w f) s).
Proof.
  intros Hf (H1 & H2 & H3 & H4).
  unfold consistent, with_connections. cbn [clients connections intervals
    next_interval]. rewrite length_update.
  split; [|split; [|split]]; trivial.
  intros w' c. rewrite nth_error_update.
  destruct (w =? w')%nat; [|apply H2].
  destruct (nth_error (connections s) w') as [c'|] eqn:E; [|discriminate].
  intros [= <-]. rewrite Hf. now apply H2.
Qed.

Lemma consistent_next_addr (v : value) s :
  consistent s ->
  consistent ((if is_object v then with_next_addr (S (next_addr s))
               else fun s => s) s).
Proof. now destruct (is_object v). Qed.

Lemma consistent_delete s k :
  consistent s -> consistent (with_clients (Map_delete key_eq_dec k) s).
Proof.
  intros (H1 & H2 & H3 & H4). unfold consistent, with_clients.
  cbn [clients connections intervals next_interval].
  split; [|split; [|split]]; trivial.
  intros k' c Hin. apply In_Map_delete in Hin. now apply (H4 k').
Qed.

Lemma consistent_insert s k self ip t :
  t = self -> self < List.length (connections s) ->
  consistent s ->
  consistent
    (with_clients
       (fun m => Map_set key_eq_dec k
                   {| ws := self; tailscaleIp := ip; pingInterval := t |}
                   (Map_delete key_eq_dec k m)) s).
Proof.
  intros -> Hlt (H1 & H2 & H3 & H4). unfold consistent, with_clients.
  cbn [clients connections intervals next_interval].
  split; [|split; [|split]]; trivial.
  intros k' c Hin. apply In_Map_set in Hin.
  destruct Hin as [[= -> ->] | Hin]; [now split|].
  apply In_Map_delete in Hin. now apply (H4 k').
Qed.

Lemma consistent_clear s t :
  consistent s ->
  consistent (with_intervals (filter (fun t' => negb (t' =? t)%nat)) s).
Proof.
  intros (H1 & H2 & H3 & H4). unfold consistent, with_intervals.
  cbn [clients connections intervals next_interval].
  split; [|split; [|split]]; trivial.
  intros t' Hin. apply filter_In in Hin. now apply H3.
Qed.

Lemma state_of_bind_gets A B (f : server -> A) (k : A -> M B) s :
  state_of (bind (gets f) k s) = state_of (k (f s) s).
Proof.
  unfold bind, gets, state_of. now destruct (k (f s) s) as [[r s2] out2].
Qed.

Lemma output_of_bind_gets A B (f : server -> A) (k : A -> M B) s :
  output_of (bind (gets f) k s) = output_of (k (f s) s).
Proof.
  unfold bind, gets, output_of. now destruct (k (f s) s) as [[r s2] out2].
Qed.

Lemma step_consistent ev s : consistent s -> consistent (state_of (step ev s)).
Proof.
  intros Hs. destruct ev as [|w text|w|w message|w|w r].
  - (* Connection *)
    destruct Hs as (H1 & H2 & H3 & H4).
    unfold step, on_connection, setInterval, bind, gets, modify, emit, ret,
      state_of, with_connections, consistent.
    cbn [fst snd clients connections intervals next_interval].
    rewrite length_app. cbn [List.length].
    split; [|split; [|split]].
    + lia.
    + intros w c Hn.
      destruct (Nat.lt_ge_cases w (List.length (connections s))) as [Hlt|Hge].
      * rewrite nth_error_app1 in Hn by trivial. now apply H2.
      * rewrite nth_error_app2 in Hn by trivial.
        destruct (w - List.length (connections s)) as [|[|n]] eqn:E;
          simpl in Hn; try discriminate.
        injection Hn as <-. cbn [conn_pingInterval]. lia.
    + intros t [<- | Hin]; [lia|]. apply H3 in Hin. lia.
    + intros k c Hin. apply H4 in Hin. split; [tauto | lia].
  - (* Message *)
    unfold step. rewrite state_of_bind_gets.
    destruct (accepted s w) eqn:Hacc; [|exact Hs].
    apply on_message_state; trivial.
    + intros v. now apply consistent_next_addr.
    + intros v k. apply consistent_update; trivial.
      now apply consistent_next_addr.
    + intros v k ip. apply consistent_insert.
      * now apply pingInterval_in_accepted.
      * unfold with_connections. cbn [connections]. rewrite length_update.
        apply Nat.ltb_lt in Hacc. now destruct (is_object v).
      * apply consistent_update; trivial. now apply consistent_next_addr.
  - (* Close *)
    destruct (accepted s w) eqn:Hacc.
    + rewrite (@close_run w s Hacc). cbv zeta.
      destruct (key_truthy (userId_in s w)); unfold state_of; cbn [fst snd].
      * apply consistent_delete, consistent_clear, consistent_update; trivial.
      * apply consistent_clear, consistent_update; trivial.
    + unfold step, bind, gets. now rewrite Hacc.
  - (* Error *)
    unfold step, on_error, console_error, emit, bind, gets.
    now destruct (accepted s w).
  - (* Interval *)
    unfold step, ping, readyState, ws_send, emit, bind, gets, ret.
    destruct (accepted s w && running s (pingInterval_in s w)); trivial.
    cbv iota beta. now destruct (is_OPEN (readyState_in s w)).
  - (* Transport *)
    apply consistent_update; trivial.
Qed.

Lemma run_consistent evs : consistent (state_of (run evs initial)).
Proof.
  apply (run_preserves (P := consistent)).
  - intros ev s. apply step_consistent.
  - unfold consistent, initial. simpl.
    split; [|split; [|split]]; try tauto.
    intros [|w] c; discriminate.
Qed.

(** ** Intervals along a run *)

Lemma cleared_app t (a b : list effect) :
  cleared t (a ++ b) = cleared t a + cleared t b.
Proof.
  induction a as [|[] a IH]; simpl; trivial. rewrite IH. lia.
Qed.

Lemma cleared_users t (s : server) (m : list (key * client)) :
  cleared t (map (fun e => Console (ConnectedUser (fst e) (tailscaleIp (snd e))
                                      (readyState_in s (ws (snd e))))) m) = 0.
Proof. induction m; simpl; trivial. Qed.

Lemma on_message_no_clear self text s t :
  cleared t (output_of (on_message self text s)) = 0.
Proof.
  destruct (JSON_parse text) as [data|] eqn:Hp;
    [|now rewrite (on_message_malformed self s Hp)].
  destruct (get data "type") as [ty|e] eqn:Ht;
    [|now rewrite (on_message_no_type self s Hp Ht)].
  rewrite (on_message_dispatch self s Hp Ht).
  assert (Hobj : forall lit, is_string ty lit = true ->
                             exists props, data = VObj props).
  { intros lit Hlit. destruct ty; try discriminate.
    destruct (get_string _ _ Ht) as (props & -> & _). eauto. }
  destruct (is_string ty "register") eqn:H1.
  { destruct (Hobj _ H1) as (props & ->). rewrite register_run.
    cbv zeta.
    match goal with
    | |- context [match ?x with Some _ => _ | None => _ end] => destruct x
    end; unfold output_of; cbn [fst snd]; trivial.
    rewrite !cleared_app, cleared_users. reflexivity. }
  destruct (is_string ty "message") eqn:H2.
  { destruct (Hobj _ H2) as (props & ->). rewrite relay_message_run.
    cbv zeta. unfold output_of; cbn [fst snd].
    match goal with
    | |- context [match ?x with Some _ => _ | None => _ end] => destruct x
    end; reflexivity. }
  destruct (is_string ty "webrtc-signal") eqn:H3.
  { destruct (Hobj _ H3) as (props & ->). rewrite relay_signal_run.
    cbv zeta.
    match goal with
    | |- context [match ?x with Some _ => _ | None => _ end] => destruct x
    end; unfold output_of; cbn [fst snd]; trivial.
    destruct (get (assoc "data" props) "type"); reflexivity. }
  reflexivity.
Qed.

Lemma running_filter s t w :
  running (with_intervals (filter (fun t' => negb (t' =? t)%nat)) s) w
  = running s w && negb (t =? w)%nat.
Proof.
  unfold running, with_intervals. cbn [intervals].
  induction (intervals s) as [|t' l IH]; simpl; trivial.
  destruct (t' =? t)%nat eqn:E; simpl.
  - apply Nat.eqb_eq in E. subst t'. rewrite IH.
    destruct (t =? w)%nat; simpl; trivial.
    now rewrite andb_false_r.
  - rewrite IH. destruct (t' =? w)%nat eqn:E'; simpl; trivial.
    apply Nat.eqb_eq in E'. subst t'. rewrite Nat.eqb_sym, E. reflexivity.
Qed.

Lemma step_running ev s w :
  consistent s -> accepted s w = true ->
  running (state_of (step ev s)) w = running s w && negb (closes w ev) /\
  accepted (state_of (step ev s)) w = true.
Proof.
  intros Hs Hacc. pose proof Hacc as Hlt. apply Nat.ltb_lt in Hlt.
  destruct ev as [|w' text|w'|w' message|w'|w' r]; cbn [closes negb];
    rewrite ?andb_true_r.
  - (* Connection *)
    destruct Hs as (H1 & _).
    unfold step, on_connection, setInterval, bind, gets, modify, emit, ret,
      state_of, with_connections, running, accepted.
    cbn [fst snd connections intervals existsb].
    rewrite length_app. cbn [List.length]. split.
    + rewrite H1. replace (List.length (connections s) =? w)%nat with false;
        [reflexivity|]. symmetry. apply Nat.eqb_neq. lia.
    + apply Nat.ltb_lt. lia.
  - (* Message *)
    unfold step. rewrite state_of_bind_gets.
    destruct (accepted s w'); [|now split].
    apply on_message_state with
      (Q := fun s' => running s' w = running s w /\ accepted s' w = true);
      try (now split); intros; unfold accepted, running, with_clients,
        with_connections in *; cbn [connections intervals];
        rewrite ?length_update; now destruct (is_object v).
  - (* Close *)
    destruct (accepted s w') eqn:Hacc'.
    + rewrite (@close_run w' s Hacc'). cbv zeta.
      rewrite (@pingInterval_in_accepted s w' Hs Hacc').
      assert (Hr : running
                     (with_intervals (filter (fun t' => negb (t' =? w')%nat))
                        (with_connections
                           (update w' (fun c =>
                              {| conn_readyState := CLOSED;
                                 conn_userId := conn_userId c;
                                 conn_pingInterval := conn_pingInterval c |}))
                           s)) w
                   = running s w && negb (w' =? w)%nat).
      { now rewrite running_filter. }
      destruct (key_truthy (userId_in s w')); unfold state_of;
        cbn [fst snd]; (split; [exact Hr|]);
        unfold accepted, with_clients, with_intervals, with_connections;
        cbn [connections]; now rewrite length_update.
    + unfold step. rewrite state_of_bind_gets, Hacc'. split; trivial.
      replace (w' =? w)%nat with false; [now rewrite andb_true_r|].
      symmetry. apply Nat.eqb_neq. intros ->. congruence.
  - (* Error *)
    unfold step. rewrite state_of_bind_gets.
    now destruct (accepted s w').
  - (* Interval *)
    unfold step. rewrite state_of_bind_gets.
    destruct (accepted s w' && running s (pingInterval_in s w'));
      [|now split].
    unfold ping, readyState, ws_send, emit, bind, gets, ret, state_of.
    cbv iota beta. now destruct (is_OPEN (readyState_in s w')).
  - (* Transport *)
    unfold step, set_readyState, modify, state_of, running, accepted,
      with_connections. cbn [fst snd connections intervals].
    now rewrite length_update.
Qed.

Lemma run_running evs s w :
  consistent s -> accepted s w = true ->
  running (state_of (run evs s)) w
  = running s w && negb (existsb (closes w) evs) /\
  accepted (state_of (run evs s)) w = true.
Proof.
  revert s. induction evs as [|ev evs IH]; intros s Hs Hacc.
  - simpl. now rewrite andb_true_r.
  - rewrite state_of_run_cons.
    destruct (@step_running ev s w Hs Hacc) as (Hr & Ha).
    destruct (IH _ (@step_consistent ev s Hs) Ha) as (Hr' & Ha').
    split; trivial. rewrite Hr', Hr. cbn [existsb].
    rewrite negb_orb. now rewrite andb_assoc.
Qed.

Lemma step_cleared ev s w :
  consistent s -> accepted s w = true ->
  cleared w (output_of (step ev s)) = if closes w ev then 1 else 0.
Proof.
  intros Hs Hacc.
  destruct ev as [|w' text|w'|w' message|w'|w' r]; cbn [closes].
  - reflexivity.
  - unfold step. rewrite output_of_bind_gets.
    destruct (accepted s w'); [apply on_message_no_clear | reflexivity].
  - destruct (accepted s w') eqn:Hacc'.
    + rewrite (@close_run w' s Hacc'). cbv zeta.
      rewrite (@pingInterval_in_accepted s w' Hs Hacc').
      destruct (key_truthy (userId_in s w')); unfold output_of;
        cbn [fst snd cleared]; rewrite ?cleared_users;
        destruct (w' =? w)%nat; reflexivity.
    + unfold step. rewrite output_of_bind_gets, Hacc'.
      replace (w' =? w)%nat with false; [reflexivity|].
      symmetry. apply Nat.eqb_neq. intros ->. congruence.
  - unfold step. rewrite output_of_bind_gets.
    now destruct (accepted s w').
  - unfold step. rewrite output_of_bind_gets.
    destruct (accepted s w' && running s (pingInterval_in s w'));
      [|reflexivity].
    unfold ping, readyState, ws_send, emit, bind, gets, ret, output_of.
    cbv iota beta. now destruct (is_OPEN (readyState_in s w')).
  - reflexivity.
Qed.

(** ** Teardown and intervals *)


(** C4, as the code has it: the interval of a connection lives as long as the
    connection, not as long as a record.  Take any run, then a new
    connection, then any further events.  The socket of that connection is
    accepted and has an interval which runs, whether or not the socket ever
    registers, exactly until a [close] event of that socket; in the state
    reached, [clearInterval] is called on it once by a [close] event of the
    socket and by no other event (not by [error], not by a registration that
    replaces a stale record); every record carries the interval of the
    socket it names; and no other socket has the same interval. *)
Theorem interval_lives_with_connection (evs1 evs2 : list event) :
  let w := List.length (connections (state_of (run evs1 initial))) in
  let s := state_of (run (evs1 ++ Connection :: evs2) initial) in
  let t := pingInterval_in s w in
  accepted s w = true /\
  running s t = negb (existsb (closes w) evs2) /\
  (forall ev,
      cleared t (output_of (step ev s)) = if closes w ev then 1 else 0) /\
  (forall k c, In (k, c) (clients s) ->
               pingInterval c = pingInterval_in s (ws c)) /\
  (forall w', accepted s w' = true -> pingInterval_in s w' = t -> w' = w).
Proof.
  intros w s t.
  set (s0 := state_of (run evs1 initial)) in *.
  assert (Hs0 : consistent s0) by apply run_consistent.
  set (s1 := state_of (step Connection s0)).
  assert (Hs1 : consistent s1) by now apply step_consistent.
  assert (Hacc1 : accepted s1 w = true).
  { unfold s1, step, on_connection, setInterval, bind, gets, modify, emit,
      ret, state_of, with_connections, accepted.
    cbn [fst snd connections]. rewrite length_app. cbn [List.length].
    apply Nat.ltb_lt. unfold w. lia. }
  assert (Hrun1 : running s1 w = true).
  { destruct Hs0 as (H1 & _).
    unfold s1, step, on_connection, setInterval, bind, gets, modify, emit,
      ret, state_of, with_connections, running.
    cbn [fst snd intervals existsb]. rewrite H1. fold w.
    now rewrite Nat.eqb_refl. }
  assert (Hs : s = state_of (run evs2 s1)).
  { unfold s. now rewrite run_app_state, state_of_run_cons. }
  destruct (@run_running evs2 s1 w Hs1 Hacc1) as (Hr & Hacc).
  rewrite <- Hs in Hr, Hacc. rewrite Hrun1 in Hr. cbn [andb] in Hr.
  assert (Hcons : consistent s).
  { rewrite Hs. apply (run_preserves (P := consistent)); trivial.
    intros ev s'. apply step_consistent. }
  assert (Ht : t = w) by now apply pingInterval_in_accepted.
  rewrite Ht.
  split; [exact Hacc|]. split; [exact Hr|]. split; [|split].
  - intros ev. now apply step_cleared.
  - intros k c Hin. destruct Hcons as (_ & _ & _ & H4).
    destruct (H4 k c Hin) as (Hp & Hlt). rewrite Hp.
    symmetry. apply pingInterval_in_accepted.
    + rewrite Hs. apply (run_preserves (P := consistent)); trivial.
      intros ev s'. apply step_consistent.
    + now apply Nat.ltb_lt.
  - intros w' Hacc' Hw'.
    now rewrite (@pingInterval_in_accepted s w' Hcons Hacc') in Hw'.
Qed.

(** * Further properties *)

(** ** The address helpers of the HTTP routes *)

Lemma push_fold (A B : Type) (keep : A -> bool) (f : A -> B) l acc :
  fold_left (fun ips i => if keep i then ips ++ [f i] else ips) l acc
  = acc ++ flat_map (fun i => if keep i then [f i] else []) l.
Proof.
  revert acc. induction l as [|i l IH]; intros acc; simpl.
  - now rewrite app_nil_r.
  - rewrite IH. destruct (keep i); simpl; [|reflexivity].
    now rewrite <- app_assoc.
Qed.

Lemma getServerIps_flat interfaces :
  getServerIps interfaces
  = flat_map
      (fun entry =>
         flat_map
           (fun i => if (family i =? "IPv4") && negb (internal i)
                     then [{| ip_interface := fst entry;
                              ip_address := address i |}]
                     else [])
           (snd entry))
      interfaces.
Proof.
  unfold getServerIps.
  enough (H : forall acc,
             fold_left
               (fun ips entry =>
                  fold_left
                    (fun ips i =>
                       if (family i =? "IPv4") && negb (internal i)
                       then ips ++ [{| ip_interface := fst entry;
                                       ip_address := address i |}]
                       else ips)
                    (snd entry) ips)
               interfaces acc
             = acc ++
               flat_map
                 (fun entry =>
                    flat_map
                      (fun i => if (family i =? "IPv4") && negb (internal i)
                                then [{| ip_interface := fst entry;
                                         ip_address := address i |}]
                                else [])
                      (snd entry))
                 interfaces) by apply H.
  induction interfaces as [|entry rest IH]; intros acc; simpl.
  - now rewrite app_nil_r.
  - rewrite IH.
    rewrite (push_fold
               (fun i => (family i =? "IPv4") && negb (internal i))
               (fun i => {| ip_interface := fst entry;
                            ip_address := address i |})).
    now rewrite app_assoc.
Qed.

(** X1: [getServerIps] lists exactly the addresses of family [IPv4] that are
    not internal, each under the name of its interface: nothing else gets
    in, and none of them is left out. *)
Theorem getServerIps_lists_external_IPv4 interfaces name addr :
  In {| ip_interface := name; ip_address := addr |} (getServerIps interfaces)
  <->
  exists ifaces i,
    In (name, ifaces) interfaces /\ In i ifaces /\
    family i = "IPv4" /\ internal i = false /\ address i = addr.
Proof.
  rewrite getServerIps_flat, in_flat_map. split.
  - intros ([n ifaces] & Hin & H). apply in_flat_map in H.
    destruct H as (i & Hi & H). cbn [fst snd] in *.
    destruct (family i =? "IPv4") eqn:Hf; [|destruct H].
    destruct (internal i) eqn:Hint; [destruct H|].
    destruct H as [[= <- <-] | []].
    exists ifaces, i. apply String.eqb_eq in Hf. tauto.
  - intros (ifaces & i & Hin & Hi & Hf & Hint & <-).
    exists (name, ifaces). split; trivial.
    apply in_flat_map. exists i. split; trivial.
    cbn [fst snd]. rewrite Hf, Hint. now left.
Qed.

(** X2: [getServerIps] keeps the order of the interfaces and works on each
    one by itself: the answer for two groups of interfaces is the answer for
    the first followed by the answer for the second, and it is never longer
    than the number of addresses given. *)
Theorem getServerIps_in_order a b :
  getServerIps (a ++ b) = getServerIps a ++ getServerIps b /\
  List.length (getServerIps a)
  <= List.length (flat_map (fun entry => snd entry) a).
Proof.
  rewrite !getServerIps_flat. split; [apply flat_map_app|].
  induction a as [|[n ifaces] a IH]; simpl; [lia|].
  rewrite !length_app.
  enough (List.length
            (flat_map
               (fun i => if (family i =? "IPv4") && negb (internal i)
                         then [{| ip_interface := n; ip_address := address i |}]
                         else [])
               ifaces)
          <= List.length ifaces) by lia.
  clear. induction ifaces as [|i l IH]; simpl; [lia|].
  rewrite length_app.
  destruct ((family i =? "IPv4") && negb (internal i)); simpl; lia.
Qed.

Lemma includes_append c a b :
  includes c (String.append a b) = includes c a || includes c b.
Proof.
  induction a as [|c' a IH]; simpl; trivial.
  now rewrite IH, orb_assoc.
Qed.

Lemma includes_first_segment c s :
  includes c (hd EmptyString (split_on c s)) = false.
Proof.
  induction s as [|c' s IH]; simpl; trivial.
  destruct (c' =? c)%char eqn:E; simpl; trivial.
  destruct (split_on c s) as [|first others]; simpl in *.
  - now rewrite E.
  - now rewrite E, IH.
Qed.

Lemma first_segment c first rest :
  includes c first = false ->
  hd EmptyString (split_on c (String.append first (String c rest))) = first.
Proof.
  induction first as [|c' first IH]; simpl.
  - now rewrite Ascii.eqb_refl.
  - intros H. apply orb_false_iff in H. destruct H as (Hc & Hf).
    rewrite Hc. specialize (IH Hf).
    destruct (split_on c (String.append first (String c rest)));
      simpl in *; now subst.
Qed.

Lemma includes_trimStart c s :
  includes c s = false -> includes c (trimStart s) = false.
Proof.
  induction s as [|c' s IH]; simpl; trivial.
  intros H. apply orb_false_iff in H. destruct H as (Hc & Hs).
  destruct (is_white_space c'); [now apply IH|].
  simpl. now rewrite Hc, Hs.
Qed.

Lemma includes_trimEnd c s :
  includes c s = false -> includes c (trimEnd s) = false.
Proof.
  induction s as [|c' s IH]; simpl; trivial.
  intros H. apply orb_false_iff in H. destruct H as (Hc & Hs).
  specialize (IH Hs).
  destruct (trimEnd s) as [|c2 kept].
  - destruct (is_white_space c'); simpl; trivial. now rewrite Hc.
  - simpl in *. now rewrite Hc, IH.
Qed.

Lemma includes_drop c n s :
  includes c s = false -> includes c (drop n s) = false.
Proof.
  revert s. induction n as [|n IH]; intros [|c' s]; simpl; trivial.
  intros H. apply orb_false_iff in H. now apply IH.
Qed.

Lemma replace_first_prefix pattern s :
  String.prefix pattern s = true ->
  replace_first pattern "" s = drop (String.length pattern) s.
Proof.
  intros H. destruct s; simpl; simpl in H; now rewrite H.
Qed.

Lemma prefix_append p s : String.prefix p (String.append p s) = true.
Proof.
  induction p as [|c p IH]; simpl; [now destruct s|].
  destruct (ascii_dec c c); [exact IH | congruence].
Qed.

Lemma drop_append p s : drop (String.length p) (String.append p s) = s.
Proof. induction p as [|c p IH]; simpl; trivial. Qed.

(** X3: whatever the header and the socket say, the [clientIp] that
    [/get-ip] answers contains no comma. *)
Theorem clientIp_has_no_comma forwarded remoteAddress :
  includes "," (clientIp forwarded remoteAddress) = false.
Proof.
  unfold clientIp.
  set (clientIp0 := or_string forwarded (or_string remoteAddress "")).
  assert (H1 : includes ","
                 (if includes "," clientIp0
                  then trim (hd EmptyString (split_on "," clientIp0))
                  else clientIp0) = false).
  { destruct (includes "," clientIp0) eqn:E; trivial.
    unfold trim. apply includes_trimEnd, includes_trimStart,
      includes_first_segment. }
  cbv zeta.
  destruct (startsWith "::ffff:" _) eqn:Hp; trivial.
  unfold startsWith in Hp. rewrite (replace_first_prefix _ _ Hp).
  now apply includes_drop.
Qed.

(** X4: when [x-forwarded-for] holds a list, [/get-ip] answers its first
    element, trimmed, without a leading [::ffff:]; the other elements and
    the address of the socket play no part. *)
Theorem clientIp_is_first_forwarded first rest remoteAddress :
  includes "," first = false ->
  clientIp (Some (String.append first (String "," rest))) remoteAddress
  = (if startsWith "::ffff:" (trim first)
     then drop 7 (trim first)
     else trim first).
Proof.
  intros Hfirst. unfold clientIp.
  assert (H0 : or_string (Some (String.append first (String "," rest)))
                 (or_string remoteAddress "")
               = String.append first (String "," rest)).
  { unfold or_string. now destruct first. }
  rewrite H0. cbv zeta.
  assert (Hc : includes "," (String.append first (String "," rest)) = true).
  { rewrite includes_append. simpl. now rewrite orb_true_r. }
  rewrite Hc, (first_segment "," first rest Hfirst).
  destruct (startsWith "::ffff:" (trim first)) eqn:Hp; trivial.
  unfold startsWith in Hp. now rewrite (replace_first_prefix _ _ Hp).
Qed.

(** X5: without the header (absent or empty), [/get-ip] answers the address
    of the socket: as it is when it does not start with [::ffff:], and
    without these seven characters when it does (an IPv4 address mapped
    into IPv6). *)
Theorem clientIp_of_socket a forwarded :
  includes "," a = false ->
  forwarded = None \/ forwarded = Some "" ->
  clientIp forwarded (Some (String.append "::ffff:" a)) = a /\
  (startsWith "::ffff:" a = false -> clientIp forwarded (Some a) = a).
Proof.
  intros Ha Hforwarded.
  assert (H0 : forall x, or_string forwarded (or_string (Some x) "") = x).
  { intros x. destruct Hforwarded as [-> | ->]; unfold or_string; simpl;
      now destruct x. }
  split.
  - unfold clientIp. rewrite H0. cbv zeta.
    assert (Hc : includes "," (String.append "::ffff:" a) = false).
    { rewrite includes_append. now rewrite Ha. }
    rewrite Hc. unfold startsWith.
    rewrite (prefix_append "::ffff:" a).
    rewrite (replace_first_prefix _ _ (prefix_append "::ffff:" a)).
    apply (drop_append "::ffff:" a).
  - intros Hp. unfold clientIp. rewrite H0. cbv zeta.
    now rewrite Ha, Hp.
Qed.

(** X6: [/ping] without [ip], or with an empty one, is answered 400 and runs
    no command.  Any other [ip] is not checked: one command is run, made of
    the fixed words for the platform followed by the text of [ip] as given,
    and the answer is 500 when [exec] reports an error and 200 with the same
    [ip] when it does not. *)
Theorem ping_route_answers platform exec ip :
  let result := ping_route platform exec ip in
  let commands := fst (fst result) in
  let answer := snd result in
  let cmd := String.append
               (if platform =? "win32" then "ping -n 1 " else "ping -c 1 ")
               (ToString ip) in
  (truthy ip = false ->
   commands = [] /\ res_status answer = 400) /\
  (truthy ip = true ->
   commands = [cmd] /\
   res_status answer = (if exec_error (exec cmd) then 500 else 200) /\
   (exec_error (exec cmd) = false ->
    assoc "ip" (match res_body answer with
                | VObj props => props
                | _ => []
                end) = ip) /\
   (exec_error (exec cmd) = true ->
    snd (fst result) = [PingFailed (exec_stderr (exec cmd))])).
Proof.
  intros result commands answer cmd. subst result commands answer.
  unfold ping_route. split; intros Hip; rewrite Hip; cbn [negb].
  - now split.
  - assert (Hcmd : (if platform =? "win32"
                    then String.append "ping -n 1 " (ToString ip)
                    else String.append "ping -c 1 " (ToString ip)) = cmd).
    { unfold cmd. now destruct (platform =? "win32"). }
    cbv zeta. rewrite Hcmd.
    destruct (exec_error (exec cmd)); cbn [fst snd res_status res_body];
      repeat split; try discriminate; reflexivity.
Qed.

(** ** More on frames *)

Lemma userId_in_assigned s self k (f : server -> server) :
  connections (f s) = connections s ->
  accepted s self = true ->
  userId_in
    (with_connections
       (update self (fun c =>
          {| conn_readyState := conn_readyState c; conn_userId := k;
             conn_pingInterval := conn_pingInterval c |})) (f s)) self
  = k.
Proof.
  intros Hf Hacc. unfold userId_in, with_connections. cbn [connections].
  rewrite nth_error_update, Nat.eqb_refl, Hf.
  destruct (nth_error (connections s) self) eqn:E; trivial.
  apply nth_error_None in E. apply Nat.ltb_lt in Hacc. lia.
Qed.

Lemma userId_in_other s self k w (f : server -> server) :
  connections (f s) = connections s ->
  w <> self ->
  userId_in
    (with_connections
       (update self (fun c =>
          {| conn_readyState := conn_readyState c; conn_userId := k;
             conn_pingInterval := conn_pingInterval c |})) (f s)) w
  = userId_in s w.
Proof.
  intros Hf Hne. unfold userId_in, with_connections. cbn [connections].
  rewrite nth_error_update, Hf.
  destruct (self =? w)%nat eqn:E; trivial.
  apply Nat.eqb_eq in E. congruence.
Qed.

Lemma connections_next_addr (v : value) s :
  connections ((if is_object v then with_next_addr (S (next_addr s))
                else fun s => s) s)
  = connections s.
Proof. now destruct (is_object v). Qed.

(** The state after a frame: untouched, or with a new address counted, or,
    for a [register] frame, with [userId] assigned and, when the identity
    has no live record, the record set. *)
Lemma on_message_shapes (Q : server -> Prop) self text s :
  Q s ->
  (forall v : value,
      Q ((if is_object v then with_next_addr (S (next_addr s))
          else fun s => s) s)) ->
  (forall props,
      JSON_parse text = Some (VObj props) ->
      assoc "type" props = VStr "register" ->
      let uid := assoc "userId" props in
      let k := key_at (next_addr s) uid in
      let s1 :=
        with_connections
          (update self (fun c =>
             {| conn_readyState := conn_readyState c; conn_userId := k;
                conn_pingInterval := conn_pingInterval c |}))
          ((if is_object uid then with_next_addr (S (next_addr s))
            else fun s => s) s) in
      (forall c, live s k = Some c -> Q s1) /\
      (live s k = None ->
       Q (with_clients
            (fun m =>
               Map_set key_eq_dec k
                 {| ws := self;
                    tailscaleIp := normalize (assoc "tailscaleIP" props);
                    pingInterval := pingInterval_in s self |}
                 (Map_delete key_eq_dec k m)) s1))) ->
  Q (state_of (on_message self text s)).
Proof.
  intros Hs Hbump Hreg.
  destruct (JSON_parse text) as [data|] eqn:Hp;
    [|now rewrite (on_message_malformed self s Hp)].
  destruct (get data "type") as [ty|e] eqn:Ht;
    [|now rewrite (on_message_no_type self s Hp Ht)].
  rewrite (on_message_dispatch self s Hp Ht).
  assert (Hobj : forall lit, is_string ty lit = true ->
                             exists props, data = VObj props /\
                                           assoc "type" props = VStr lit).
  { intros lit Hlit. destruct ty; try discriminate.
    simpl in Hlit. apply String.eqb_eq in Hlit. subst.
    destruct (get_string _ _ Ht) as (props & -> & Hty). eauto. }
  destruct (is_string ty "register") eqn:H1.
  { destruct (Hobj _ H1) as (props & -> & Hty).
    destruct (Hreg props eq_refl Hty) as (Hrefused & Haccepted).
    rewrite register_run. cbv zeta. fold (live s
      (key_at (next_addr s) (assoc "userId" props))).
    destruct (live s (key_at (next_addr s) (assoc "userId" props)))
      as [c|] eqn:Hl; unfold state_of; cbn [fst snd].
    - exact (Hrefused c eq_refl).
    - exact (Haccepted eq_refl). }
  destruct (is_string ty "message") eqn:H2.
  { destruct (Hobj _ H2) as (props & -> & _). rewrite relay_message_run.
    cbv zeta. unfold state_of; cbn [fst snd]; auto. }
  destruct (is_string ty "webrtc-signal") eqn:H3.
  { destruct (Hobj _ H3) as (props & -> & _). rewrite relay_signal_run.
    cbv zeta.
    match goal with
    | |- context [match ?x with Some _ => _ | None => _ end] => destruct x
    end; unfold state_of; cbn [fst snd]; auto. }
  exact Hs.
Qed.

(** X7: a [register] frame gives the socket's [userId] the identity it
    names, whether the registration is accepted or refused. *)
Theorem register_rebinds_userId self text props s :
  JSON_parse text = Some (VObj props) ->
  assoc "type" props = VStr "register" ->
  accepted s self = true ->
  userId_in (state_of (on_message self text s)) self
  = key_at (next_addr s) (assoc "userId" props).
Proof.
  intros Hp Ht Hacc.
  rewrite (on_message_dispatch self s Hp (get_object props "type")).
  rewrite Ht. cbn [is_string]. rewrite String.eqb_refl.
  rewrite register_run. cbv zeta.
  match goal with
  | |- context [match ?x with Some _ => _ | None => _ end] => destruct x
  end; unfold state_of; cbn [fst snd].
  - apply userId_in_assigned; trivial. apply connections_next_addr.
  - unfold with_clients at 1. unfold userId_in at 1. cbn [connections].
    apply (userId_in_assigned s self _
             (fun s => (if is_object (assoc "userId" props)
                        then with_next_addr (S (next_addr s))
                        else fun s => s) s)); trivial.
    apply connections_next_addr.
Qed.

(** X8: a frame from one socket leaves every other socket alone: it starts
    and stops no interval, accepts and drops no connection, changes no
    [readyState] and no interval handle, and changes the [userId] of no
    socket but, at most, the sender's. *)
Theorem frame_touches_only_its_socket self text s :
  let s' := state_of (on_message self text s) in
  intervals s' = intervals s /\
  next_interval s' = next_interval s /\
  List.length (connections s') = List.length (connections s) /\
  (forall w, readyState_in s' w = readyState_in s w) /\
  (forall w, pingInterval_in s' w = pingInterval_in s w) /\
  (forall w, w <> self -> userId_in s' w = userId_in s w).
Proof.
  cbv zeta.
  apply on_message_state with
    (Q := fun s' =>
            intervals s' = intervals s /\
            next_interval s' = next_interval s /\
            List.length (connections s') = List.length (connections s) /\
            (forall w, readyState_in s' w = readyState_in s w) /\
            (forall w, pingInterval_in s' w = pingInterval_in s w) /\
            (forall w, w <> self -> userId_in s' w = userId_in s w)).
  - repeat split; trivial.
  - intros v. now destruct (is_object v).
  - intros v k. unfold with_connections at 1 2 3.
    cbn [intervals next_interval connections]. rewrite length_update.
    split; [now destruct (is_object v)|].
    split; [now destruct (is_object v)|].
    split; [now destruct (is_object v)|].
    split; [|split].
    + intros w. apply readyState_in_userId, connections_next_addr.
    + intros w. apply pingInterval_in_userId, connections_next_addr.
    + intros w Hw. apply userId_in_other; trivial.
      apply connections_next_addr.
  - intros v k ip. unfold with_clients at 1 2 3.
    cbn [intervals next_interval connections].
    unfold with_connections at 1 2 3.
    cbn [intervals next_interval connections]. rewrite length_update.
    split; [now destruct (is_object v)|].
    split; [now destruct (is_object v)|].
    split; [now destruct (is_object v)|].
    split; [|split].
    + intros w. unfold with_clients, readyState_in at 1. cbn [connections].
      apply (readyState_in_userId s self k w), connections_next_addr.
    + intros w. unfold with_clients, pingInterval_in at 1. cbn [connections].
      apply (pingInterval_in_userId s self k w), connections_next_addr.
    + intros w Hw. unfold with_clients, userId_in at 1. cbn [connections].
      apply (userId_in_other s k); trivial. apply connections_next_addr.
Qed.

(** X9: a frame changes the registry at one identity at most, the one a
    [register] frame names: what any other identity is bound to stays as it
    was, whatever the frame. *)
Theorem frame_changes_only_its_identity self text s k' :
  (forall props,
      JSON_parse text = Some (VObj props) ->
      assoc "type" props = VStr "register" ->
      key_at (next_addr s) (assoc "userId" props) <> k') ->
  Map_get key_eq_dec k' (clients (state_of (on_message self text s)))
  = Map_get key_eq_dec k' (clients s).
Proof.
  intros Hother.
  apply on_message_shapes with
    (Q := fun s' => Map_get key_eq_dec k' (clients s')
                    = Map_get key_eq_dec k' (clients s)).
  - reflexivity.
  - intros v. now rewrite clients_next_addr.
  - intros props Hp Ht uid k s1. specialize (Hother props Hp Ht).
    fold uid k in Hother.
    assert (Hcl : clients s1 = clients s).
    { unfold s1, with_connections. cbn [clients]. apply clients_next_addr. }
    split.
    + intros _ _. now rewrite Hcl.
    + intros _. unfold with_clients. cbn [clients]. rewrite Hcl.
      rewrite Map_get_set_other by congruence.
      apply Map_get_delete_other. congruence.
Qed.

(** X10: the [close] event of a socket changes the registry at one identity
    at most, the socket's [userId]: every other identity stays bound as it
    was, and when [userId] is [null] (never registered) or otherwise falsy,
    the registry is not changed at all. *)
Theorem close_removes_only_userId w s :
  accepted s w = true ->
  let s' := state_of (step (Close w) s) in
  (forall k', k' <> userId_in s w ->
              Map_get key_eq_dec k' (clients s')
              = Map_get key_eq_dec k' (clients s)) /\
  (key_truthy (userId_in s w) = false -> clients s' = clients s) /\
  (key_truthy (userId_in s w) = true ->
   clients s' = Map_delete key_eq_dec (userId_in s w) (clients s)).
Proof.
  intros Hacc. cbv zeta. rewrite (@close_run w s Hacc). cbv zeta.
  destruct (key_truthy (userId_in s w)); unfold state_of; cbn [fst snd].
  - split; [|split]; try discriminate.
    + intros k' Hk. unfold with_clients. cbn [clients].
      now apply Map_get_delete_other.
    + reflexivity.
  - split; [|split]; try discriminate; reflexivity.
Qed.

(** ** Registration, routing and close together *)

Lemma key_at_primitive (v : value) a b :
  is_object v = false -> key_at a v = key_at b v.
Proof. now destruct v. Qed.

(** After an accepted registration under a primitive identity, the
    identity is bound to the requester, live while its channel is open. *)
Lemma registered_is_live self text props s :
  let uid := assoc "userId" props in
  let s' := state_of (on_message self text s) in
  JSON_parse text = Some (VObj props) ->
  assoc "type" props = VStr "register" ->
  is_object uid = false ->
  live s (key_at (next_addr s) uid) = None ->
  readyState_in s self = OPEN ->
  forall a,
    live s' (key_at a uid)
    = Some {| ws := self;
              tailscaleIp := normalize (assoc "tailscaleIP" props);
              pingInterval := pingInterval_in s self |}.
Proof.
  intros uid s' Hp Ht Hprim Hl Hopen a.
  destruct (register_accepted self s Hp Ht Hl) as (_ & Hcl & _ & Hrs).
  fold uid s' in Hcl, Hrs.
  unfold live. rewrite (key_at_primitive uid a (next_addr s) Hprim), Hcl.
  erewrite <- Map_set_absent by apply Map_get_delete.
  rewrite Map_get_set_same. cbn [ws]. now rewrite Hrs, Hopen.
Qed.

(** X11: once an identity is registered and its channel open, registering
    it again is refused, for another socket and for the owner alike: the
    requester gets the error and the registry stays as it is. *)
Theorem second_registration_refused self text props s other text' props' :
  let uid := assoc "userId" props in
  let s' := state_of (on_message self text s) in
  let r := on_message other text' s' in
  JSON_parse text = Some (VObj props) ->
  assoc "type" props = VStr "register" ->
  is_object uid = false ->
  live s (key_at (next_addr s) uid) = None ->
  readyState_in s self = OPEN ->
  JSON_parse text' = Some (VObj props') ->
  assoc "type" props' = VStr "register" ->
  assoc "userId" props' = uid ->
  sends (output_of r)
  = [(other,
      JSON_stringify
        (VObj [("type", VStr "error");
               ("message",
                VStr (String.append "User "
                       (String.append dquote
                         (String.append (ToString uid)
                           (String.append dquote
                              " is already registered.")))))]))] /\
  clients (state_of r) = clients s'.
Proof.
  intros uid s' r Hp Ht Hprim Hl Hopen Hp' Ht' Hu'.
  pose proof (registered_is_live self s Hp Ht Hprim Hl Hopen
                (next_addr s')) as Hlive.
  fold uid s' in Hlive. rewrite <- Hu' in Hlive at 1.
  destruct (register_refused other s' Hp' Ht' Hlive) as (_ & Hcl & Hs).
  fold r in Hcl, Hs. rewrite Hu' in Hs. now split.
Qed.



(** ** The keep-alive *)

Lemma connection_opens evs1 evs2 :
  let w := List.length (connections (state_of (run evs1 initial))) in
  let s := state_of (run (evs1 ++ Connection :: evs2) initial) in
  consistent s /\ accepted s w = true /\ pingInterval_in s w = w /\
  running s w = negb (existsb (closes w) evs2).
Proof.
  intros w s.
  set (s0 := state_of (run evs1 initial)) in *.
  assert (Hs0 : consistent s0) by apply run_consistent.
  set (s1 := state_of (step Connection s0)).
  assert (Hs1 : consistent s1) by now apply step_consistent.
  assert (Hacc1 : accepted s1 w = true).
  { unfold s1, step, on_connection, setInterval, bind, gets, modify, emit,
      ret, state_of, with_connections, accepted.
    cbn [fst snd connections]. rewrite length_app. cbn [List.length].
    apply Nat.ltb_lt. unfold w. lia. }
  assert (Hrun1 : running s1 w = true).
  { destruct Hs0 as (H1 & _).
    unfold s1, step, on_connection, setInterval, bind, gets, modify, emit,
      ret, state_of, with_connections, running.
    cbn [fst snd intervals existsb]. rewrite H1. fold w.
    now rewrite Nat.eqb_refl. }
  assert (Hs : s = state_of (run evs2 s1)).
  { unfold s. now rewrite run_app_state, state_of_run_cons. }
  destruct (@run_running evs2 s1 w Hs1 Hacc1) as (Hr & Hacc).
  rewrite <- Hs in Hr, Hacc. rewrite Hrun1 in Hr. cbn [andb] in Hr.
  assert (Hcons : consistent s) by apply run_consistent.
  split; [exact Hcons|]. split; [exact Hacc|]. split; [|exact Hr].
  now apply pingInterval_in_accepted.
Qed.

(** X14: the keep-alive of a connection.  In the state reached by any run,
    a new connection and any further events, a firing of that connection's
    interval changes nothing in the server and writes [{type:"ping"}] to
    that socket alone, provided the socket has not had its [close] event
    and its [readyState] is [OPEN]; otherwise it writes nothing.  So no ping
    is sent after [close]. *)
Theorem keep_alive_stops_at_close (evs1 evs2 : list event) :
  let w := List.length (connections (state_of (run evs1 initial))) in
  let s := state_of (run (evs1 ++ Connection :: evs2) initial) in
  let r := step (Interval w) s in
  state_of r = s /\
  output_of r
  = if negb (existsb (closes w) evs2) && is_OPEN (readyState_in s w)
    then [Send w (JSON_stringify (VObj [("type", VStr "ping")]))]
    else [].
Proof.
  intros w s r.
  destruct (connection_opens evs1 evs2) as (_ & Hacc & Hp & Hr).
  fold w s in Hacc, Hp, Hr.
  subst r. unfold step.
  rewrite state_of_bind_gets, output_of_bind_gets.
  rewrite Hacc, Hp, Hr. cbn [andb].
  destruct (negb (existsb (closes w) evs2)); [|now split].
  unfold ping, readyState, ws_send, emit, bind, gets, ret, state_of,
    output_of.
  cbv iota beta. cbn [andb].
  now destruct (is_OPEN (readyState_in s w)).
Qed.

(** ** Where the server writes *)




(** X16: the address kept in a record and echoed to the client is never
    blank: [normalize] answers a truthy value that is not the string
    ["null"], either its argument or ["N/A"], and normalizing twice is
    normalizing once. *)
Theorem address_never_blank (v : value) :
  truthy (normalize v) = true /\
  is_string (normalize v) "null" = false /\
  (normalize v = v \/ normalize v = VStr "N/A") /\
  normalize (normalize v) = normalize v.
Proof.
  assert (H : truthy (normalize v) = true /\
              is_string (normalize v) "null" = false).
  { unfold normalize.
    destruct (truthy v && negb (is_string v "null")) eqn:E.
    - apply andb_true_iff in E. destruct E as (Ht & Hn).
      apply negb_true_iff in Hn. now split.
    - split; reflexivity. }
  destruct H as (Ht & Hn). split; [exact Ht|]. split; [exact Hn|]. split.
  - unfold normalize. destruct (truthy v && negb (is_string v "null")); auto.
  - unfold normalize at 1. now rewrite Ht, Hn.
Qed.

(** ** Identities that are objects *)






(** ** What routing does not look at *)



(** X19: routing does not look at the sender.  A [message] or
    [webrtc-signal] frame causes the same write whichever socket it comes
    from, registered or not: the [from] it carries is passed on as it is and
    is not compared with the sender's [userId]. *)
Theorem routing_ignores_sender self other text props s :
  JSON_parse text = Some (VObj props) ->
  assoc "type" props = VStr "message" \/
  assoc "type" props = VStr "webrtc-signal" ->
  sends (output_of (on_message self text s))
  = sends (output_of (on_message other text s)).
Proof.
  intros Hp [Ht | Ht].
  - destruct (message_routed self s Hp Ht) as (_ & _ & H1).
    destruct (message_routed other s Hp Ht) as (_ & _ & H2).
    now rewrite H1, H2.
  - destruct (signal_routed self s Hp Ht) as (_ & _ & H1).
    destruct (signal_routed other s Hp Ht) as (_ & _ & H2).
    now rewrite H1, H2.
Qed.

End Server.

Arguments KUndefined {number}.
Arguments KNull {number}.
Arguments KBool {number} b.
Arguments KStr {number} s.
Arguments KRef {number} addr.

(** * Worked runs on the sample platform *)

Abbreviation handle :=
  (step Z.eq_dec Sample.number_truthy Sample.number_to_string
        Sample.JSON_parse Sample.JSON_stringify).
Abbreviation on_frame :=
  (on_message Z.eq_dec Sample.number_truthy Sample.number_to_string
              Sample.JSON_parse Sample.JSON_stringify).
Abbreviation after evs :=
  (state_of (run Z.eq_dec Sample.number_truthy Sample.number_to_string
                 Sample.JSON_parse Sample.JSON_stringify evs (initial Z))).
Abbreviation bound_to s k := (Map_get (key_eq_dec Z.eq_dec) k (clients s)).
Abbreviation frame v := (Sample.text_of v).

(** C1, failing run.  Socket 0 registers as [alice]; socket 1 asks for
    [alice] too and is refused, but its [userId] was assigned before the
    check; when socket 1 closes, [clients.delete(userId)] removes the record
    of socket 0, whose channel is still open.  Likewise a socket whose
    record was replaced after its channel stopped being open removes the
    newer record of another socket when its [close] arrives. *)
Theorem close_evicts_record_of_other_socket :
  let s := after [Connection; Connection;
                  Message 0 (frame (Sample.register_as "alice"));
                  Message 1 (frame (Sample.register_as "alice"))] in
  let s' := state_of (handle (Close 1) s) in
  let u := after [Connection;
                  Message 0 (frame (Sample.register_as "alice"));
                  Transport 0 CLOSING; Connection;
                  Message 1 (frame (Sample.register_as "alice"))] in
  let u' := state_of (handle (Close 0) u) in
  (bound_to s (KStr "alice")
   = Some {| ws := 0; tailscaleIp := VStr "N/A"; pingInterval := 0 |} /\
   readyState_in s 0 = OPEN /\
   userId_in s 1 = KStr "alice" /\
   bound_to s' (KStr "alice") = None /\
   readyState_in s' 0 = OPEN) /\
  (bound_to u (KStr "alice")
   = Some {| ws := 1; tailscaleIp := VStr "N/A"; pingInterval := 1 |} /\
   readyState_in u 1 = OPEN /\
   bound_to u' (KStr "alice") = None /\
   readyState_in u' 1 = OPEN).
Proof. vm_compute. repeat split. Qed.

(** C2, failing runs.  A socket that registered as [alice] and then as
    [bob] leaves [alice] bound to it after it has closed, because [close]
    deletes only the last [userId]; a socket that registered under the
    empty string leaves that record behind, because [if (userId)] takes the
    empty string for no registration.  In both runs the interval is
    stopped. *)
Theorem close_leaves_record_of_closed_socket :
  let s := after [Connection;
                  Message 0 (frame (Sample.register_as "alice"));
                  Message 0 (frame (Sample.register_as "bob"));
                  Close 0] in
  let u := after [Connection;
                  Message 0 (frame (Sample.register_as ""));
                  Close 0] in
  (readyState_in s 0 = CLOSED /\
   running s (pingInterval_in s 0) = false /\
   bound_to s (KStr "bob") = None /\
   bound_to s (KStr "alice")
   = Some {| ws := 0; tailscaleIp := VStr "N/A"; pingInterval := 0 |}) /\
  (readyState_in u 0 = CLOSED /\
   running u (pingInterval_in u 0) = false /\
   bound_to u (KStr "")
   = Some {| ws := 0; tailscaleIp := VStr "N/A"; pingInterval := 0 |}).
Proof. vm_compute. repeat split. Qed.


(** C4, counterexample: a socket that was accepted and never registered has
    a running interval, which fires a [ping], and no record; and a socket
    that registered under two identities has two records with one and the
    same interval. *)
Lemma interval_runs_without_record :
  let s := after [Connection] in
  let u := after [Connection;
                  Message 0 (frame (Sample.register_as "alice"));
                  Message 0 (frame (Sample.register_as "bob"))] in
  (running s (pingInterval_in s 0) = true /\
   ~ has_record s 0 /\
   sends (output_of (handle (Interval 0) s))
   = [(0, frame (VObj [("type", VStr "ping")]))]) /\
  (bound_to u (KStr "alice")
   = Some {| ws := 0; tailscaleIp := VStr "N/A"; pingInterval := 0 |} /\
   bound_to u (KStr "bob")
   = Some {| ws := 0; tailscaleIp := VStr "N/A"; pingInterval := 0 |}).
Proof.
  cbv zeta. split; [split; [|split]|split].
  - vm_compute. reflexivity.
  - intros (k & c & H & _). vm_compute in H. destruct H.
  - vm_compute. reflexivity.
  - vm_compute. reflexivity.
  - vm_compute. reflexivity.
Qed.

(** C5 on a run: socket 0 holds [alice] and is open; socket 1 asks for
    [alice]. *)
Lemma duplicate_registration_rejected_witness :
  let s := after [Connection; Connection;
                  Message 0 (frame (Sample.register_as "alice"))] in
  let r := on_frame 1 (frame (Sample.register_as "alice")) s in
  let c := {| ws := 0; tailscaleIp := VStr "N/A"; pingInterval := 0 |} in
  completion_of r = Normal tt /\
  sends (output_of r)
  = [(1,
      frame
        (VObj [("type", VStr "error");
               ("message",
                VStr (String.append "User "
                       (String.append dquote
                         (String.append "alice"
                           (String.append dquote
                              " is already registered.")))))]))] /\
  clients (state_of r) = clients s /\
  bound_to (state_of r) (KStr "alice") = Some c.
Proof.
  cbv zeta.
  apply (@duplicate_registration_rejected Z Z.eq_dec Sample.number_truthy
           Sample.number_to_string Sample.JSON_parse Sample.JSON_stringify
           1 (frame (Sample.register_as "alice"))
           [("type", VStr "register"); ("userId", VStr "alice")] "alice"
           {| ws := 0; tailscaleIp := VStr "N/A"; pingInterval := 0 |});
    vm_compute; reflexivity.
Defined.



(** C8 on a run: a text that is not JSON, sent by a registered socket. *)
Lemma unrecognised_frame_dropped_witness :
  let s := after [Connection;
                  Message 0 (frame (Sample.register_as "alice"))] in
  let r := on_frame 0 "hello" s in
  state_of r = s /\ sends (output_of r) = [].
Proof.
  cbv zeta.
  apply (@unrecognised_frame_dropped Z Z.eq_dec Sample.number_truthy
           Sample.number_to_string Sample.JSON_parse Sample.JSON_stringify
           0 "hello" _).
  left. vm_compute. reflexivity.
Defined.


(** More runs: frames of an unknown kind and the frame [null] are dropped;
    the address ["null"] is answered with ["N/A"]; a signal is relayed to
    the socket of its destination, and to nobody once that socket has
    closed. *)
Example unknown_kind_and_null_dropped :
  let s := after [Connection;
                  Message 0 (frame (Sample.register_as "alice"))] in
  state_of (on_frame 0 (frame Sample.hello) s) = s /\
  sends (output_of (on_frame 0 (frame Sample.hello) s)) = [] /\
  state_of (on_frame 0 (frame VNull) s) = s /\
  sends (output_of (on_frame 0 (frame VNull) s)) = [].
Proof. vm_compute. repeat split. Qed.

Example null_address_normalised :
  sends (output_of (on_frame 0 (frame (Sample.register_with "carol" "null"))
                             (after [Connection])))
  = [(0, frame (VObj [("type", VStr "registered"); ("userId", VStr "carol");
                      ("tailscaleIp", VStr "N/A")]))].
Proof. vm_compute. reflexivity. Qed.

Example signal_relayed_while_open :
  let s := after [Connection; Connection;
                  Message 0 (frame (Sample.register_as "alice"));
                  Message 1 (frame (Sample.register_as "bob"))] in
  let signal := frame (Sample.signal_to "alice" "bob" "offer") in
  sends (output_of (on_frame 0 signal s))
  = [(1, frame (VObj [("type", VStr "webrtc-signal"); ("from", VStr "alice");
                      ("to", VStr "bob");
                      ("data", VObj [("type", VStr "offer")])]))] /\
  sends (output_of (on_frame 0 signal (state_of (handle (Close 1) s)))) = [].
Proof. vm_compute. repeat split. Qed.

(** * Worked runs for the further properties *)

Abbreviation on_object_frame :=
  (on_message Z.eq_dec Sample.number_truthy Sample.number_to_string
              Objects.JSON_parse Sample.JSON_stringify).
Abbreviation after_objects evs :=
  (state_of (run Z.eq_dec Sample.number_truthy Sample.number_to_string
                 Objects.JSON_parse Sample.JSON_stringify evs (initial Z))).

(** X4 on a header with two hops. *)
Lemma clientIp_is_first_forwarded_witness :
  clientIp (Some " 10.0.0.1, ::ffff:192.168.1.1") (Some "::ffff:127.0.0.1")
  = "10.0.0.1".
Proof.
  exact (@clientIp_is_first_forwarded " 10.0.0.1" " ::ffff:192.168.1.1"
           (Some "::ffff:127.0.0.1") eq_refl).
Defined.

(** X5 on a mapped loopback address. *)
Lemma clientIp_of_socket_witness :
  clientIp None (Some "::ffff:127.0.0.1") = "127.0.0.1".
Proof.
  exact (proj1 (@clientIp_of_socket "127.0.0.1" None eq_refl
                  (or_introl eq_refl))).
Defined.

(** X7 on a run: socket 1 asks for [alice], held by socket 0, and is
    refused; its [userId] is [alice] all the same. *)
Lemma register_rebinds_userId_witness :
  let s := after [Connection; Connection;
                  Message 0 (frame (Sample.register_as "alice"))] in
  userId_in (state_of (on_frame 1 (frame (Sample.register_as "alice")) s)) 1
  = KStr "alice".
Proof.
  cbv zeta.
  apply (@register_rebinds_userId Z Z.eq_dec Sample.number_truthy
           Sample.number_to_string Sample.JSON_parse Sample.JSON_stringify
           1 (frame (Sample.register_as "alice"))
           [("type", VStr "register"); ("userId", VStr "alice")]);
    vm_compute; reflexivity.
Defined.

(** X9 on a run: socket 1 registers as [bob]; [alice] stays bound as it
    was. *)
Lemma frame_changes_only_its_identity_witness :
  let s := after [Connection; Connection;
                  Message 0 (frame (Sample.register_as "alice"))] in
  bound_to (state_of (on_frame 1 (frame (Sample.register_as "bob")) s))
           (KStr "alice")
  = bound_to s (KStr "alice").
Proof.
  cbv zeta.
  apply (@frame_changes_only_its_identity Z Z.eq_dec Sample.number_truthy
           Sample.number_to_string Sample.JSON_parse Sample.JSON_stringify
           1 (frame (Sample.register_as "bob"))).
  intros props Hp _. vm_compute in Hp. injection Hp as <-.
  vm_compute. discriminate.
Defined.

(** X10 on a run: socket 1, registered as [bob], closes; [alice] stays. *)
Lemma close_removes_only_userId_witness :
  let s := after [Connection; Connection;
                  Message 0 (frame (Sample.register_as "alice"));
                  Message 1 (frame (Sample.register_as "bob"))] in
  bound_to (state_of (handle (Close 1) s)) (KStr "alice")
  = bound_to s (KStr "alice").
Proof.
  cbv zeta.
  refine (proj1 (@close_removes_only_userId Z Z.eq_dec Sample.number_truthy
                   Sample.number_to_string Sample.JSON_parse
                   Sample.JSON_stringify 1
                   (after [Connection; Connection;
                           Message 0 (frame (Sample.register_as "alice"));
                           Message 1 (frame (Sample.register_as "bob"))])
                   eq_refl) (KStr "alice") _).
  vm_compute. discriminate.
Defined.

(** X11 on a run: socket 0 registers as [alice] twice. *)
Lemma second_registration_refused_witness :
  let s := after [Connection] in
  let s' := state_of (on_frame 0 (frame (Sample.register_as "alice")) s) in
  let r := on_frame 0 (frame (Sample.register_as "alice")) s' in
  sends (output_of r)
  = [(0,
      frame
        (VObj [("type", VStr "error");
               ("message",
                VStr (String.append "User "
                       (String.append dquote
                         (String.append "alice"
                           (String.append dquote
                              " is already registered.")))))]))] /\
  clients (state_of r) = clients s'.
Proof.
  cbv zeta.
  apply (@second_registration_refused Z Z.eq_dec Sample.number_truthy
           Sample.number_to_string Sample.JSON_parse Sample.JSON_stringify
           0 (frame (Sample.register_as "alice"))
           [("type", VStr "register"); ("userId", VStr "alice")]
           (after [Connection])
           0 (frame (Sample.register_as "alice"))
           [("type", VStr "register"); ("userId", VStr "alice")]);
    vm_compute; reflexivity.
Defined.





(** X19 on a run: socket 2 never registered and writes to [bob] in the name
    of [alice]; socket 1 receives what it would have received from socket
    0. *)
Lemma routing_ignores_sender_witness :
  let s := after [Connection; Connection; Connection;
                  Message 0 (frame (Sample.register_as "alice"));
                  Message 1 (frame (Sample.register_as "bob"))] in
  sends (output_of
           (on_frame 2 (frame (Sample.message_to "alice" "bob" "hi" 1)) s))
  = sends (output_of
             (on_frame 0 (frame (Sample.message_to "alice" "bob" "hi" 1)) s)).
Proof.
  cbv zeta.
  apply (@routing_ignores_sender Z Z.eq_dec Sample.number_truthy
           Sample.number_to_string Sample.JSON_parse Sample.JSON_stringify
           2 0 (frame (Sample.message_to "alice" "bob" "hi" 1))
           [("type", VStr "message"); ("from", VStr "alice");
            ("to", VStr "bob"); ("message", VStr "hi");
            ("timestamp", VNum 1%Z)]).
  - vm_compute. reflexivity.
  - left. reflexivity.
Defined.
